(** * mcp-command-proxy: the bounded log store and the command runner

    A shallow embedding of [src/utils/buffer.ts] (class [CircularBuffer]),
    of [src/utils/command-runner.ts] (class [CommandRunner]) and of the
    [sendKeyPress] tool of [src/index.ts], with the properties of the
    specification proved about them.

    JavaScript values are modelled as far as the code needs them:
    - a [number] is an integer or [NaN] (the code only counts, compares and
      takes remainders; fractions and infinities never arise from integers
      under these operations);
    - an [Array] is a length together with a finite map from property keys
      to values, so that holes, writes past the end and a write at the key
      [NaN] behave as they do in the language;
    - a string is a [string] of 8-bit characters. *)

From Stdlib Require Import Ascii String.
From stdpp Require Import base numbers list gmap strings pretty.

Local Open Scope Z_scope.

(** ** JavaScript primitives used by the sources *)

Module Js.

Inductive number := Num (z : Z) | NaN.

#[global] Instance number_eq_dec : EqDecision number.
Proof. solve_decision. Defined.

Definition number_to_option (n : number) : option Z :=
  match n with Num z => Some z | NaN => None end.

Definition number_of_option (o : option Z) : number :=
  match o with Some z => Num z | None => NaN end.

#[global] Instance number_countable : Countable number.
Proof.
  apply (inj_countable' number_to_option number_of_option).
  by intros [].
Defined.

(** [a + b] *)
Definition add (a b : number) : number :=
  match a, b with
  | Num x, Num y => Num (x + y)
  | _, _ => NaN
  end.

(** [a % b]: the remainder takes the sign of the dividend, and a zero
    divisor gives [NaN]. *)
Definition rem (a b : number) : number :=
  match a, b with
  | Num x, Num y => if decide (y = 0) then NaN else Num (Z.rem x y)
  | _, _ => NaN
  end.

(** [a < b]: every comparison with [NaN] is false. *)
Definition lt (a b : number) : bool :=
  match a, b with
  | Num x, Num y => bool_decide (x < y)
  | _, _ => false
  end.

(** Truthiness of a number: [0] and [NaN] are falsy. *)
Definition truthy (n : number) : bool :=
  match n with
  | Num z => bool_decide (z ≠ 0)
  | NaN => false
  end.

(** Thrown values: [Error] objects. *)
Record Error := { name : string; message : string }.

#[global] Instance Error_eq_dec : EqDecision Error.
Proof. solve_decision. Defined.

(** [Error.prototype.toString], which [`${error}`] calls. *)
Definition Error_toString (e : Error) : string :=
  if decide (name e = EmptyString) then message e
  else if decide (message e = EmptyString) then name e
  else name e +:+ ": " +:+ message e.

Definition RangeError (msg : string) : Error :=
  {| name := "RangeError"; message := msg |}.

(** Completion of a call: a normal return or a thrown error. *)
Inductive completion (A : Type) :=
  | Return (a : A)
  | Throw (e : Error).
Arguments Return {A} a.
Arguments Throw {A} e.

(** Arrays. The [length] is kept as the language does; the code under study
    never reads it, but [new Array(n)] checks it. *)
Record Array (T : Type) := { Array_length : Z; props : gmap number T }.
Arguments Array_length {T} _.
Arguments props {T} _.

(** [new Array<T>(len)]: a [RangeError] unless [len] is an integer in
    [0, 2^32 - 1]; otherwise [len] holes. *)
Definition Array_new {T} (len : number) : completion (Array T) :=
  match len with
  | Num n =>
      if decide (0 ≤ n < 2 ^ 32)
      then Return {| Array_length := n; props := ∅ |}
      else Throw (RangeError "Invalid array length")
  | NaN => Throw (RangeError "Invalid array length")
  end.

(** [a[k]]: [None] is [undefined] (a hole or a missing property). *)
Definition Array_get {T} (a : Array T) (k : number) : option T :=
  props a !! k.

(** [a[k] = v]: an index at or past the end extends the array; any other
    key ([NaN], a negative number) is an ordinary property. *)
Definition Array_set {T} (a : Array T) (k : number) (v : T) : Array T :=
  {| Array_length :=
       match k with
       | Num i => if decide (0 ≤ i < 2 ^ 32 - 1)
                  then Z.max (Array_length a) (i + 1) else Array_length a
       | NaN => Array_length a
       end;
     props := <[k := v]> (props a) |}.

(** *** Strings *)

Definition quote : ascii := "034"%char.
Definition backslash : ascii := "\"%char.
Definition space : ascii := " "%char.

(** [s.split(' ')]: the pieces between the occurrences of the space
    character; never empty (the empty string gives one empty piece). *)
Fixpoint split_space (s : string) : list string :=
  match s with
  | EmptyString => [EmptyString]
  | String c s' =>
      if decide (c = space) then EmptyString :: split_space s'
      else match split_space s' with
           | piece :: pieces => String c piece :: pieces
           | [] => [String c EmptyString]
           end
  end.

(** [pieces.join(sep)] *)
Fixpoint join (sep : string) (pieces : list string) : string :=
  match pieces with
  | [] => EmptyString
  | [piece] => piece
  | piece :: pieces' => piece +:+ sep +:+ join sep pieces'
  end.

(** [s.toLowerCase()] on 8-bit text: the letters A to Z are lowered. *)
Definition lower_char (c : ascii) : ascii :=
  let n := Ascii.N_of_ascii c in
  if decide (65 ≤ n ≤ 90)%N then Ascii.ascii_of_N (n + 32) else c.

Fixpoint toLowerCase (s : string) : string :=
  match s with
  | EmptyString => EmptyString
  | String c s' => String (lower_char c) (toLowerCase s')
  end.

(** [String(n)] for the numbers of the model. *)
Definition number_toString (n : number) : string :=
  match n with
  | Num z => pretty z
  | NaN => "NaN"
  end.

Definition hex_digit (n : N) : ascii :=
  if decide (n < 10)%N then Ascii.ascii_of_N (48 + n)
  else Ascii.ascii_of_N (87 + n).

(** One character of a JSON string literal ([QuoteJSONString]). *)
Definition JSON_quote_char (c : ascii) : string :=
  let n := Ascii.N_of_ascii c in
  if decide (c = quote) then String backslash (String quote EmptyString)
  else if decide (c = backslash)
       then String backslash (String backslash EmptyString)
  else if decide (n = 8)%N then String backslash "b"
  else if decide (n = 9)%N then String backslash "t"
  else if decide (n = 10)%N then String backslash "n"
  else if decide (n = 12)%N then String backslash "f"
  else if decide (n = 13)%N then String backslash "r"
  else if decide (n < 32)%N
       then String backslash
              ("u00" +:+ String (hex_digit (n / 16))
                                (String (hex_digit (n mod 16)) EmptyString))
  else String c EmptyString.

Fixpoint JSON_quote_chars (s : string) : string :=
  match s with
  | EmptyString => EmptyString
  | String c s' => JSON_quote_char c +:+ JSON_quote_chars s'
  end.

(** *** Values that reach [CommandRunner.write]

    The parameter is typed [string], but the key table of the
    [sendKeyPress] tool is an object literal, so a lookup can also find
    the two properties with a lower-case name that every object inherits:
    [constructor] (the function [Object]) and [__proto__]
    ([Object.prototype]). *)
Inductive value :=
  | VString (s : string)
  | VObjectConstructor
  | VObjectPrototype.

#[global] Instance value_eq_dec : EqDecision value.
Proof. solve_decision. Defined.

(** [`${JSON.stringify(v)}`]: a function has no JSON text, and the
    template prints the resulting [undefined]. *)
Definition JSON_stringify (v : value) : string :=
  match v with
  | VString s =>
      String quote (JSON_quote_chars s +:+ String quote EmptyString)
  | VObjectConstructor => "undefined"
  | VObjectPrototype => "{}"
  end.

End Js.

(** ** src/utils/buffer.ts *)

Module CircularBuffer.
Import Js.

Record t (T : Type) := {
  buffer : Array T;
  head : number;
  tail : number;
  size : number;
  capacity : number
}.
Arguments buffer {T} _.
Arguments head {T} _.
Arguments tail {T} _.
Arguments size {T} _.
Arguments capacity {T} _.

Section Methods.
Context {T : Type}.

(** [constructor(capacity)] *)
Definition new (capacity : number) : completion (t T) :=
  match Array_new capacity with
  | Return a =>
      Return {| buffer := a; head := Num 0; tail := Num 0;
                size := Num 0; capacity := capacity |}
  | Throw e => Throw e
  end.

(** [push(item)] *)
Definition push (item : T) (b : t T) : t T :=
  let buffer' := Array_set (buffer b) (head b) item in
  let head' := rem (add (head b) (Num 1)) (capacity b) in
  if lt (size b) (capacity b)
  then {| buffer := buffer'; head := head'; tail := tail b;
          size := add (size b) (Num 1); capacity := capacity b |}
  else {| buffer := buffer'; head := head';
          tail := rem (add (tail b) (Num 1)) (capacity b);
          size := size b; capacity := capacity b |}.

(** The body of the [for] loop of [getAll], run [n] more times. *)
Fixpoint getAll_loop (b : t T) (n : nat) (current : number)
    (result : list (option T)) : list (option T) :=
  match n with
  | O => result
  | S n' =>
      getAll_loop b n' (rem (add current (Num 1)) (capacity b))
        (result ++ [Array_get (buffer b) current])
  end.

(** Number of iterations of [for (let i = 0; i < size; i++)]. *)
Definition iterations (size : number) : nat :=
  match size with
  | Num n => Z.to_nat n
  | NaN => O
  end.

(** [getAll()]; an element [None] is [undefined]. *)
Definition getAll (b : t T) : list (option T) :=
  getAll_loop b (iterations (size b)) (tail b) [].

Definition getSize (b : t T) : number := size b.

Definition getCapacity (b : t T) : number := capacity b.

(** [clear()] *)
Definition clear (b : t T) : t T :=
  {| buffer := buffer b; head := Num 0; tail := Num 0;
     size := Num 0; capacity := capacity b |}.

(** A sequence of pushes, first element first. *)
Definition pushes (items : list T) (b : t T) : t T :=
  foldl (λ acc item, push item acc) b items.

End Methods.
End CircularBuffer.

(** ** The node-pty interface used by the runner *)

Module Pty.
Import Js.

(** The options object passed to [pty.spawn]. *)
Record Options := {
  name : string;
  cols : Z;
  rows : Z;
  cwd : string;
  env : gmap string string;
  handleFlowControl : bool
}.

(** A child process attached to a pseudo-terminal. What its [write] and
    [kill] do is up to the environment: each may throw. *)
Record IPty := {
  pid : Z;
  write_throws : value → option Error;
  kill_throws : option Error
}.

End Pty.

(** ** src/utils/command-runner.ts *)

Module CommandRunner.
Import Js.

Inductive LogType := stdout | stderr | system.

#[global] Instance LogType_eq_dec : EqDecision LogType.
Proof. solve_decision. Defined.

Record LogEntry := {
  timestamp : Z;
  content : string;
  type : LogType
}.

#[global] Instance LogEntry_eq_dec : EqDecision LogEntry.
Proof. solve_decision. Defined.

Inductive ProcessStatus := RUNNING | STOPPED | ERROR.

#[global] Instance ProcessStatus_eq_dec : EqDecision ProcessStatus.
Proof. solve_decision. Defined.

(** [CommandRunnerEvents]: an event with its arguments. The signal of
    [exit] is optional. *)
Inductive Event :=
  | log (entry : LogEntry)
  | exit (code : number) (signal : option number)
  | error (err : Error)
  | statusChange (status : ProcessStatus).

Inductive EventName := on_log | on_exit | on_error | on_statusChange.

#[global] Instance EventName_eq_dec : EqDecision EventName.
Proof. solve_decision. Defined.

(** [CommandRunnerOptions] *)
Module Options.
Record t := {
  command : string;
  args : option (list string);
  cwd : option string;
  env : option (gmap string string);
  logBufferSize : option number
}.
End Options.

(** The fields of the class, and [listeners], the number of listeners the
    inherited [EventEmitter] holds for each event. *)
Record t := {
  process : option Pty.IPty;
  logBuffer : CircularBuffer.t LogEntry;
  status : ProcessStatus;
  command : string;
  args : list string;
  cwd : string;
  env : gmap string string;
  listeners : EventName → nat
}.

(** What the runner does to its surroundings, in order: the events it
    emits and its calls to node-pty. *)
Inductive Effect :=
  | Emit (ev : Event)
  | Spawn (file : string) (args : list string) (options : Pty.Options)
  | OnData (pid : Z)
  | OnExit (pid : Z)
  | Write (pid : Z) (data : value)
  | Kill (pid : Z).

(** The surroundings of a runner: the clock, read by [Date.now()] once
    per log entry; the outcome of each call of [pty.spawn]; the working
    directory and environment of the host process; and the effects so
    far. *)
Record World := {
  now : nat → Z;
  clock_reads : nat;
  spawn_outcome : nat → completion Pty.IPty;
  spawn_calls : nat;
  process_cwd : string;
  process_env : gmap string string;
  trace : list Effect
}.

Record State := { this : t; world : World }.

(** *** Computations over a runner and its surroundings

    A method either returns or throws; what it did to the state before
    throwing stays done. *)
Definition M (A : Type) : Type := State → completion A * State.

#[global] Instance M_ret : MRet M := λ A a s, (Return a, s).

#[global] Instance M_bind : MBind M := λ A B f m s,
  match m s with
  | (Return a, s') => f a s'
  | (Throw e, s') => (Throw e, s')
  end.

Definition throw {A} (e : Error) : M A := λ s, (Throw e, s).

(** [try { body } catch (e) { handler e }] *)
Definition try_catch {A} (body : M A) (handler : Error → M A) : M A := λ s,
  match body s with
  | (Return a, s') => (Return a, s')
  | (Throw e, s') => handler e s'
  end.

Definition get_this : M t := λ s, (Return (this s), s).

Definition modify_this (f : t → t) : M unit := λ s,
  (Return (), {| this := f (this s); world := world s |}).

Definition modify_world (f : World → World) : M unit := λ s,
  (Return (), {| this := this s; world := f (world s) |}).

Definition record (eff : Effect) (w : World) : World :=
  {| now := now w; clock_reads := clock_reads w;
     spawn_outcome := spawn_outcome w; spawn_calls := spawn_calls w;
     process_cwd := process_cwd w; process_env := process_env w;
     trace := trace w ++ [eff] |}.

Definition perform (eff : Effect) : M unit := modify_world (record eff).

(** [Date.now()] *)
Definition Date_now : M Z := λ s,
  let w := world s in
  (Return (now w (clock_reads w)),
   {| this := this s;
      world := {| now := now w; clock_reads := S (clock_reads w);
                  spawn_outcome := spawn_outcome w;
                  spawn_calls := spawn_calls w;
                  process_cwd := process_cwd w;
                  process_env := process_env w;
                  trace := trace w |} |}).

(** [pty.spawn(file, args, options)] *)
Definition pty_spawn (file : string) (args : list string)
    (options : Pty.Options) : M Pty.IPty := λ s,
  let w := world s in
  (spawn_outcome w (spawn_calls w),
   {| this := this s;
      world := {| now := now w; clock_reads := clock_reads w;
                  spawn_outcome := spawn_outcome w;
                  spawn_calls := S (spawn_calls w);
                  process_cwd := process_cwd w;
                  process_env := process_env w;
                  trace := trace w ++ [Spawn file args options] |} |}).

(** [p.write(data)] *)
Definition pty_write (p : Pty.IPty) (data : value) : M unit :=
  perform (Write (Pty.pid p) data);;
  match Pty.write_throws p data with
  | Some e => throw e
  | None => mret ()
  end.

(** [p.kill()] *)
Definition pty_kill (p : Pty.IPty) : M unit :=
  perform (Kill (Pty.pid p));;
  match Pty.kill_throws p with
  | Some e => throw e
  | None => mret ()
  end.

(** [this.process.m(...)]: a method call on [null] throws. *)
Definition TypeError_null : Error :=
  {| name := "TypeError"; message := "Cannot read properties of null" |}.

Definition this_process : M Pty.IPty :=
  r ← get_this;
  match process r with
  | Some p => mret p
  | None => throw TypeError_null
  end.

(** [this.emit(name, ...)] of [EventEmitter]. The listeners are taken to
    be observers: they return and do not call back into the runner. An
    [error] event without a listener is thrown to the caller of [emit]. *)
Definition emit (ev : Event) : M unit :=
  perform (Emit ev);;
  r ← get_this;
  match ev with
  | error e => if decide (listeners r on_error = O) then throw e else mret ()
  | _ => mret ()
  end.

(** [this.on(name, listener)] *)
Definition on (name : EventName) : M unit :=
  modify_this (λ r,
    {| process := process r; logBuffer := logBuffer r; status := status r;
       command := command r; args := args r; cwd := cwd r; env := env r;
       listeners := λ n, if decide (n = name) then S (listeners r n)
                         else listeners r n |}).

Definition set_process (p : option Pty.IPty) (r : t) : t :=
  {| process := p; logBuffer := logBuffer r; status := status r;
     command := command r; args := args r; cwd := cwd r; env := env r;
     listeners := listeners r |}.

Definition set_logBuffer (b : CircularBuffer.t LogEntry) (r : t) : t :=
  {| process := process r; logBuffer := b; status := status r;
     command := command r; args := args r; cwd := cwd r; env := env r;
     listeners := listeners r |}.

Definition set_status (st : ProcessStatus) (r : t) : t :=
  {| process := process r; logBuffer := logBuffer r; status := st;
     command := command r; args := args r; cwd := cwd r; env := env r;
     listeners := listeners r |}.

(** *** The class *)

(** [a || b] on an optional number. *)
Definition number_or (a : option number) (b : number) : number :=
  match a with
  | Some n => if truthy n then n else b
  | None => b
  end.

(** [a || b] on an optional string: the empty string is falsy. *)
Definition string_or (a : option string) (b : string) : string :=
  match a with
  | Some s => if decide (s = EmptyString) then b else s
  | None => b
  end.

(** [constructor(options)]. [parts[0]] exists, [split] never giving an
    empty array. *)
Definition new (options : Options.t) (w : World) : completion t :=
  let parts := split_space (Options.command options) in
  let capacity := number_or (Options.logBufferSize options) (Num 300) in
  match CircularBuffer.new capacity with
  | Return b =>
      Return {| process := None;
                logBuffer := b;
                status := STOPPED;
                command := hd EmptyString parts;
                args := tl parts ++ default [] (Options.args options);
                cwd := string_or (Options.cwd options) (process_cwd w);
                env := default (process_env w) (Options.env options);
                listeners := λ _, O |}
  | Throw e => Throw e
  end.

(** [addLogEntry(content, type)] *)
Definition addLogEntry (content : string) (type : LogType) : M unit :=
  timestamp ← Date_now;
  let entry := {| timestamp := timestamp; content := content; type := type |} in
  modify_this
    (λ r, set_logBuffer (CircularBuffer.push entry (logBuffer r)) r);;
  emit (log entry).

(** [setStatus(status)] *)
Definition setStatus (st : ProcessStatus) : M unit :=
  modify_this (set_status st);;
  r ← get_this;
  emit (statusChange (status r)).

(** The listener that [start] passes to [onData]. *)
Definition onData_listener (data : string) : M unit :=
  addLogEntry data stdout.

(** [signal || 'none'] inside the template of the exit message. *)
Definition signal_text (signal : option number) : string :=
  match signal with
  | Some n => if truthy n then number_toString n else "none"
  | None => "none"
  end.

(** The listener that [start] passes to [onExit]. *)
Definition onExit_listener (exitCode : number) (signal : option number)
    : M unit :=
  addLogEntry ("Process exited with code " +:+ number_toString exitCode
               +:+ " and signal " +:+ signal_text signal) system;;
  setStatus STOPPED;;
  emit (exit exitCode signal);;
  modify_this (set_process None).

Definition spawn_options (r : t) : Pty.Options :=
  {| Pty.name := "xterm-color";
     Pty.cols := 80;
     Pty.rows := 30;
     Pty.cwd := cwd r;
     Pty.env := <["TERM" := "xterm-256color"]>
                  (<["FORCE_COLOR" := "1"]> (env r));
     Pty.handleFlowControl := true |}.

(** [start()] *)
Definition start : M unit :=
  try_catch
    (r ← get_this;
     addLogEntry ("Starting command: " +:+ command r +:+ " "
                  +:+ join " " (args r)) system;;
     p ← pty_spawn (command r) (args r) (spawn_options r);
     modify_this (set_process (Some p));;
     setStatus RUNNING;;
     p ← this_process;
     perform (OnData (Pty.pid p));;
     p ← this_process;
     perform (OnExit (Pty.pid p)))
    (λ err,
     setStatus ERROR;;
     addLogEntry ("Error starting command: " +:+ Error_toString err) system;;
     emit (error err)).

(** [stop()] *)
Definition stop : M unit :=
  r ← get_this;
  if bool_decide (is_Some (process r)) && bool_decide (status r = RUNNING)
  then addLogEntry "Stopping command..." system;;
       p ← this_process;
       pty_kill p
  else mret ().

(** [write(data)] *)
Definition write (data : value) : M unit :=
  r ← get_this;
  if bool_decide (is_Some (process r)) && bool_decide (status r = RUNNING)
  then addLogEntry ("Attempting to write key: " +:+ JSON_stringify data)
         system;;
       try_catch
         (p ← this_process;
          pty_write p data;;
          addLogEntry "Successfully wrote key" system)
         (λ err,
          addLogEntry ("Failed to write key: " +:+ Error_toString err) system)
  else addLogEntry "Cannot write to process: not running" system.

(** [getLogs()] *)
Definition getLogs (r : t) : list (option LogEntry) :=
  CircularBuffer.getAll (logBuffer r).

(** [getStatus()] *)
Definition getStatus (r : t) : ProcessStatus := status r.

End CommandRunner.

(** ** src/index.ts: the [sendKeyPress] tool *)

Module Server.
Import Js CommandRunner.

Definition CR : string := String "013"%char EmptyString.
Definition TAB : string := String "009"%char EmptyString.
Definition ESC : string := String "027"%char EmptyString.
Definition DEL : string := String "127"%char EmptyString.

(** [keyMap[name]]: the six entries of the literal, then what the object
    inherits; [None] is [undefined]. *)
Definition keyMap (name : string) : option value :=
  if decide (name = "enter") then Some (VString CR)
  else if decide (name = "return") then Some (VString CR)
  else if decide (name = "space") then Some (VString " ")
  else if decide (name = "tab") then Some (VString TAB)
  else if decide (name = "escape") then Some (VString ESC)
  else if decide (name = "backspace") then Some (VString DEL)
  else if decide (name = "constructor") then Some VObjectConstructor
  else if decide (name = "__proto__") then Some VObjectPrototype
  else None.

(** [keyMap[key.toLowerCase()] || key]: every value of the table is
    truthy. *)
Definition keyToSend (key : string) : value :=
  default (VString key) (keyMap (toLowerCase key)).

(** The result of a tool call: its text and the [isError] flag. *)
Record ToolResult := { text : string; isError : bool }.

(** The handler of [sendKeyPress]. *)
Definition sendKeyPress (key : string) : M ToolResult :=
  r ← get_this;
  if bool_decide (getStatus r ≠ RUNNING)
  then mret {| text := "Command is not running"; isError := true |}
  else write (keyToSend key);;
       mret {| text := "Key sent successfully"; isError := false |}.

End Server.

(** ** src/index.ts: the other tools, the terminal listener and the setup

    What these handlers write to the console of the host process is left
    out: it goes to a sink nothing reads back. *)

Module ServerTools.
Import Js CommandRunner Server.

Definition LF : string := String "010"%char EmptyString.
Definition CRLF : string := CR +:+ LF.
Definition CtrlC : string := String "003"%char EmptyString.

(** [-n] *)
Definition neg (n : number) : number :=
  match n with
  | Num z => Num (- z)
  | NaN => NaN
  end.

(** [a.slice(start)]: a negative [start] counts from the end, and [NaN]
    and [-0] count as 0. *)
Definition slice_from {A} (start : number) (a : list A) : list A :=
  let len := Z.of_nat (length a) in
  let relative := match start with Num z => z | NaN => 0 end in
  let k := if decide (relative < 0) then Z.max (len + relative) 0
           else Z.min relative len in
  drop (Z.to_nat k) a.

(** Reading [log.type] of [undefined] throws. *)
Definition TypeError_undefined : Error :=
  {| name := "TypeError";
     message := "Cannot read properties of undefined (reading 'type')" |}.

(** [logs.filter((log) => types.includes(log.type))] *)
Fixpoint filter_types (types : list LogType) (logs : list (option LogEntry))
    : completion (list (option LogEntry)) :=
  match logs with
  | [] => Return []
  | None :: _ => Throw TypeError_undefined
  | Some entry :: logs' =>
      match filter_types types logs' with
      | Return kept =>
          Return (if bool_decide (type entry ∈ types)
                  then Some entry :: kept else kept)
      | Throw e => Throw e
      end
  end.

(** *** JSON text of the logs *)

Definition quoted (s : string) : string :=
  String quote (s +:+ String quote EmptyString).

Definition LogType_text (ty : LogType) : string :=
  match ty with
  | stdout => "stdout"
  | stderr => "stderr"
  | system => "system"
  end.

Definition ProcessStatus_text (st : ProcessStatus) : string :=
  match st with
  | RUNNING => "running"
  | STOPPED => "stopped"
  | ERROR => "error"
  end.

(** The properties of an entry, in the order [addLogEntry] creates them;
    [colon] is [":"], or [": "] when the text is indented. *)
Definition JSON_properties (colon : string) (entry : LogEntry) : list string :=
  [quoted "timestamp" +:+ colon +:+ pretty (timestamp entry);
   quoted "content" +:+ colon +:+ JSON_stringify (VString (content entry));
   quoted "type" +:+ colon +:+ quoted (LogType_text (type entry))].

(** [JSON.stringify(logs)]; an [undefined] element is written [null]. *)
Definition JSON_element (log : option LogEntry) : string :=
  match log with
  | Some entry => "{" +:+ join "," (JSON_properties ":" entry) +:+ "}"
  | None => "null"
  end.

Definition JSON_logs (logs : list (option LogEntry)) : string :=
  "[" +:+ join "," (JSON_element <$> logs) +:+ "]".

(** [JSON.stringify(logs, null, 2)] *)
Definition JSON_element_indented (log : option LogEntry) : string :=
  match log with
  | Some entry =>
      "{" +:+ LF +:+ "    "
      +:+ join ("," +:+ LF +:+ "    ") (JSON_properties ": " entry)
      +:+ LF +:+ "  }"
  | None => "null"
  end.

Definition JSON_logs_indented (logs : list (option LogEntry)) : string :=
  match logs with
  | [] => "[]"
  | _ => "[" +:+ LF +:+ "  "
         +:+ join ("," +:+ LF +:+ "  ") (JSON_element_indented <$> logs)
         +:+ LF +:+ "]"
  end.

(** *** The resource [logs://recent] *)

Record ResourceResult := { uri : string; resource_text : string }.

Definition logs_resource : M ResourceResult :=
  r ← get_this;
  let logs := slice_from (neg (Num 100)) (getLogs r) in
  mret {| uri := "logs://recent"; resource_text := JSON_logs_indented logs |}.

(** *** The tool [getRecentLogs]

    [limit] and [types] are optional, with defaults 100 and the three
    types. *)
Definition recent_logs (limit : option number) (types : option (list LogType))
    (logs : list (option LogEntry)) : completion (list (option LogEntry)) :=
  match filter_types (default [stdout; stderr; system] types) logs with
  | Return kept => Return (slice_from (neg (default (Num 100) limit)) kept)
  | Throw e => Throw e
  end.

Definition getRecentLogs (limit : option number)
    (types : option (list LogType)) : M ToolResult :=
  r ← get_this;
  match recent_logs limit types (getLogs r) with
  | Return logs => mret {| text := JSON_logs logs; isError := false |}
  | Throw e => throw e
  end.

(** *** The tool [getProcessStatus] *)
Definition getProcessStatus : M ToolResult :=
  r ← get_this;
  mret {| text := "{" +:+ quoted "status" +:+ ":"
                  +:+ quoted (ProcessStatus_text (getStatus r)) +:+ "}";
          isError := false |}.

(** *** The listener of the host terminal

    The names every object inherits from [Object.prototype]: a lookup of
    one of them in the key table finds a function or an object, on which
    [split] is not a function. *)
Definition Object_prototype_names : list string :=
  ["constructor"; "__defineGetter__"; "__defineSetter__"; "hasOwnProperty";
   "__lookupGetter__"; "__lookupSetter__"; "isPrototypeOf";
   "propertyIsEnumerable"; "toString"; "valueOf"; "__proto__";
   "toLocaleString"].

Definition TypeError_split : Error :=
  {| name := "TypeError"; message := "mapped.split is not a function" |}.

Inductive Lookup := Entry (mapped : string) | Inherited | Missing.

(** [keyMap[str]] of the listener: the arrow keys and Enter. *)
Definition terminal_keyMap (str : string) : Lookup :=
  if decide (str = ESC +:+ "[A") then Entry (ESC +:+ "[A")
  else if decide (str = ESC +:+ "[B") then Entry (ESC +:+ "[B")
  else if decide (str = ESC +:+ "[C") then Entry (ESC +:+ "[C")
  else if decide (str = ESC +:+ "[D") then Entry (ESC +:+ "[D")
  else if decide (str = CR) then Entry CRLF
  else if bool_decide (str ∈ Object_prototype_names) then Inherited
  else Missing.

(** [process.stdin.on('data', ...)]; [None] is [process.exit()]. *)
Definition terminal_listener (str : string)
    : State → option (completion () * State) := λ s,
  if decide (str = CtrlC) then None
  else if bool_decide (getStatus (this s) = RUNNING)
  then match terminal_keyMap str with
       | Entry mapped => Some (write (VString mapped) s)
       | Missing => Some (write (VString str) s)
       | Inherited => Some (Throw TypeError_split, s)
       end
  else Some (Return (), s).

(** *** The runner in [createServer]

    The statements of [createServer] that act on the runner: its
    construction, with the buffer size defaulting to 300, the three
    listeners, and the start. [Throw] is a throwing constructor. *)
Definition create_runner (command : string) (bufferSize : option number)
    (w : World) : completion (completion () * State) :=
  match new {| Options.command := command;
               Options.args := None;
               Options.cwd := None;
               Options.env := None;
               Options.logBufferSize := Some (default (Num 300) bufferSize) |}
            w with
  | Return r =>
      Return ((on on_log;; on on_exit;; on on_error;; start)
                {| this := r; world := w |})
  | Throw e => Throw e
  end.

End ServerTools.

(** ** Abstraction of a buffer

    [buf_repr C o kept b]: the buffer [b] has capacity [C >= 1], has
    evicted [o] entries so far, and retains [kept], oldest first, in the
    cells [o mod C], [(o + 1) mod C], ... *)

Record buf_repr {T} (C : Z) (o : Z) (kept : list T)
    (b : CircularBuffer.t T) : Prop := {
  repr_capacity : CircularBuffer.capacity b = Js.Num C;
  repr_positive : 1 ≤ C;
  repr_evicted : 0 ≤ o;
  repr_bounded : Z.of_nat (length kept) ≤ C;
  repr_size : CircularBuffer.size b = Js.Num (Z.of_nat (length kept));
  repr_tail : CircularBuffer.tail b = Js.Num (o mod C);
  repr_head :
    CircularBuffer.head b = Js.Num ((o + Z.of_nat (length kept)) mod C);
  repr_cells : ∀ i : nat, (i < length kept)%nat →
    Js.Array_get (CircularBuffer.buffer b) (Js.Num ((o + Z.of_nat i) mod C))
    = kept !! i
}.

(** The buffer retains [kept]: some number of entries was evicted. *)
Definition retains {T} (C : Z) (kept : list T) (b : CircularBuffer.t T) : Prop :=
  ∃ o, buf_repr C o kept b.

(** What a push does to the retained entries of a store of capacity [C]. *)
Definition push_kept {T} (C : Z) (kept : list T) (x : T) : list T :=
  if bool_decide (Z.of_nat (length kept) < C) then kept ++ [x]
  else drop 1 kept ++ [x].

(** The last [n] elements of a list. *)
Definition last_n {T} (n : nat) (xs : list T) : list T :=
  drop (length xs - n) xs.

(** ** Vocabulary for the runner *)

(** The log store of a runner was built with a capacity of at least 1 and
    only pushed to; every runner made by the constructor is so. *)
Definition runner_ok (r : CommandRunner.t) : Prop :=
  ∃ C kept, retains C kept (CommandRunner.logBuffer r).

(** The entry [addLogEntry(content, type)] creates in the world [w]. *)
Definition entry_in (w : CommandRunner.World) (content : string)
    (type : CommandRunner.LogType) : CommandRunner.LogEntry :=
  {| CommandRunner.timestamp :=
       CommandRunner.now w (CommandRunner.clock_reads w);
     CommandRunner.content := content;
     CommandRunner.type := type |}.

(** The status changes notified in a run of effects. *)
Definition status_changes (effs : list CommandRunner.Effect)
    : list CommandRunner.ProcessStatus :=
  omap (λ eff, match eff with
               | CommandRunner.Emit (CommandRunner.statusChange st) => Some st
               | _ => None
               end) effs.

(** The data handed to the input stream of a process in a run of effects. *)
Definition forwarded (effs : list CommandRunner.Effect) : list Js.value :=
  omap (λ eff, match eff with
               | CommandRunner.Write _ data => Some data
               | _ => None
               end) effs.

(** The state after the methods [ms], called in turn on [s]. *)
Definition after (ms : list (CommandRunner.M ())) (s : CommandRunner.State)
    : CommandRunner.State :=
  foldl (λ acc m, (m acc).2) s ms.

(** The calls a runner receives: its public methods, and the two
    listeners it registers on its process. *)
Inductive is_method : CommandRunner.M () → Prop :=
  | method_start : is_method CommandRunner.start
  | method_stop : is_method CommandRunner.stop
  | method_write data : is_method (CommandRunner.write data)
  | method_on name : is_method (CommandRunner.on name)
  | listener_onData data : is_method (CommandRunner.onData_listener data)
  | listener_onExit exitCode signal :
      is_method (CommandRunner.onExit_listener exitCode signal).

(** The texts of the entries of [getLogs()]. *)
Definition contents (r : CommandRunner.t) : list (option string) :=
  (λ entry : option CommandRunner.LogEntry,
     CommandRunner.content <$> entry) <$> CommandRunner.getLogs r.

(** ** The reading of the specification for argument parsing

    Modelled on the words of the specification, to be compared with the
    constructor: the command string split on whitespace, the first token
    the executable, the other tokens and then the explicit arguments the
    argument list. *)

Definition is_whitespace (c : ascii) : bool :=
  bool_decide (c ∈ [" "; "009"; "010"; "011"; "012"; "013"]%char).

(** The tokens of [s]: its maximal runs of characters other than
    whitespace; [current] is the token being read. *)
Fixpoint tokens_from (current : string) (s : string) : list string :=
  match s with
  | EmptyString => if decide (current = EmptyString) then [] else [current]
  | String c s' =>
      if is_whitespace c
      then if decide (current = EmptyString) then tokens_from EmptyString s'
           else current :: tokens_from EmptyString s'
      else tokens_from (current +:+ String c EmptyString) s'
  end.

Definition whitespace_tokens (s : string) : list string :=
  tokens_from EmptyString s.

Definition split_on_whitespace (command : string) (extra : list string)
    : string * list string :=
  (hd EmptyString (whitespace_tokens command),
   tl (whitespace_tokens command) ++ extra).

(** A piece of a command string holds no space character. *)
Fixpoint has_space (s : string) : bool :=
  match s with
  | EmptyString => false
  | String c s' => bool_decide (c = Js.space) || has_space s'
  end.

(** The control sequences of the arrow keys: up, down, right, left. *)
Definition arrow_sequences : list string :=
  [Server.ESC +:+ "[A"; Server.ESC +:+ "[B";
   Server.ESC +:+ "[C"; Server.ESC +:+ "[D"].

(** The names the key table of [sendKeyPress] answers to. *)
Definition key_names : list string :=
  ["enter"; "return"; "space"; "tab"; "escape"; "backspace"].

Definition inherited_names : list string := ["constructor"; "__proto__"].

(** ** A concrete runner

    The runner of the repository's test of the buffer size: command
    [test-cmd], two log entries retained; its process accepts every
    write. *)

Definition example_options : CommandRunner.Options.t :=
  {| CommandRunner.Options.command := "test-cmd";
     CommandRunner.Options.args := None;
     CommandRunner.Options.cwd := None;
     CommandRunner.Options.env := None;
     CommandRunner.Options.logBufferSize := Some (Js.Num 2) |}.

Definition example_pty : Pty.IPty :=
  {| Pty.pid := 4242; Pty.write_throws := λ _, None;
     Pty.kill_throws := None |}.

Definition example_world : CommandRunner.World :=
  {| CommandRunner.now := λ n, 1700000000000 + Z.of_nat n;
     CommandRunner.clock_reads := 0;
     CommandRunner.spawn_outcome := λ _, Js.Return example_pty;
     CommandRunner.spawn_calls := 0;
     CommandRunner.process_cwd := "/srv";
     CommandRunner.process_env := ∅;
     CommandRunner.trace := [] |}.

Definition example_runner : CommandRunner.t :=
  {| CommandRunner.process := None;
     CommandRunner.logBuffer :=
       {| CircularBuffer.buffer :=
            {| Js.Array_length := 2; Js.props := ∅ |};
          CircularBuffer.head := Js.Num 0;
          CircularBuffer.tail := Js.Num 0;
          CircularBuffer.size := Js.Num 0;
          CircularBuffer.capacity := Js.Num 2 |};
     CommandRunner.status := CommandRunner.STOPPED;
     CommandRunner.command := "test-cmd";
     CommandRunner.args := [];
     CommandRunner.cwd := "/srv";
     CommandRunner.env := ∅;
     CommandRunner.listeners := λ _, O |}.

Definition example_state : CommandRunner.State :=
  {| CommandRunner.this := example_runner;
     CommandRunner.world := example_world |}.

(** The same runner with a listener for [error], where [pty.spawn]
    throws. *)
Definition spawn_error : Js.Error :=
  {| Js.name := "Error"; Js.message := "Spawn error" |}.

Definition example_state_no_spawn : CommandRunner.State :=
  {| CommandRunner.this :=
       CommandRunner.this
         (CommandRunner.on CommandRunner.on_error example_state).2;
     CommandRunner.world :=
       {| CommandRunner.now := λ n, 1700000000000 + Z.of_nat n;
          CommandRunner.clock_reads := 0;
          CommandRunner.spawn_outcome := λ _, Js.Throw spawn_error;
          CommandRunner.spawn_calls := 0;
          CommandRunner.process_cwd := "/srv";
          CommandRunner.process_env := ∅;
          CommandRunner.trace := [] |} |}.

(** The same runner, started, where the process refuses every write. *)
Definition write_error : Js.Error :=
  {| Js.name := "Error"; Js.message := "Write error" |}.

Definition deaf_pty : Pty.IPty :=
  {| Pty.pid := 4242; Pty.write_throws := λ _, Some write_error;
     Pty.kill_throws := None |}.

Definition example_state_deaf : CommandRunner.State :=
  {| CommandRunner.this :=
       CommandRunner.set_status CommandRunner.RUNNING
         (CommandRunner.set_process (Some deaf_pty) example_runner);
     CommandRunner.world := example_world |}.

(** The runner of the repository's test of argument parsing. *)
Definition example_options_args : CommandRunner.Options.t :=
  {| CommandRunner.Options.command := "test-cmd arg1 arg2";
     CommandRunner.Options.args := Some ["arg3"];
     CommandRunner.Options.cwd := None;
     CommandRunner.Options.env := None;
     CommandRunner.Options.logBufferSize := Some (Js.Num 2) |}.

Definition example_runner_args : CommandRunner.t :=
  {| CommandRunner.process := None;
     CommandRunner.logBuffer := CommandRunner.logBuffer example_runner;
     CommandRunner.status := CommandRunner.STOPPED;
     CommandRunner.command := "test-cmd";
     CommandRunner.args := ["arg1"; "arg2"; "arg3"];
     CommandRunner.cwd := "/srv";
     CommandRunner.env := ∅;
     CommandRunner.listeners := λ _, O |}.

(** ** Vocabulary for the further properties *)

(** The operations that change a store. *)
Inductive buffer_op (T : Type) :=
  | op_push (item : T)
  | op_clear.
Arguments op_push {T} item.
Arguments op_clear {T}.

Definition apply_op {T} (b : CircularBuffer.t T) (op : buffer_op T)
    : CircularBuffer.t T :=
  match op with
  | op_push item => CircularBuffer.push item b
  | op_clear => CircularBuffer.clear b
  end.

Definition apply_ops {T} (ops : list (buffer_op T)) (b : CircularBuffer.t T)
    : CircularBuffer.t T :=
  foldl apply_op b ops.

(** The same operations on a bounded queue held as a list, oldest first. *)
Definition queue_op {T} (C : Z) (kept : list T) (op : buffer_op T) : list T :=
  match op with
  | op_push item => push_kept C kept item
  | op_clear => []
  end.

Definition queue_ops {T} (C : Z) (ops : list (buffer_op T)) : list T :=
  foldl (queue_op C) [] ops.

(** The cells a store of capacity [C] uses are the indices below [C]. *)
Definition within {T} (C : Z) (b : CircularBuffer.t T) : Prop :=
  CircularBuffer.capacity b = Js.Num C
  ∧ (∃ h, CircularBuffer.head b = Js.Num h ∧ 0 ≤ h < C)
  ∧ Js.Array_length (CircularBuffer.buffer b) = C
  ∧ ∀ k, is_Some (Js.props (CircularBuffer.buffer b) !! k) →
         ∃ i, k = Js.Num i ∧ 0 ≤ i < C.

(** The log entries notified in a run of effects. *)
Definition logged (effs : list CommandRunner.Effect)
    : list CommandRunner.LogEntry :=
  omap (λ eff, match eff with
               | CommandRunner.Emit (CommandRunner.log entry) => Some entry
               | _ => None
               end) effs.

(** The termination signals sent in a run of effects. *)
Definition killed (effs : list CommandRunner.Effect) : list Z :=
  omap (λ eff, match eff with
               | CommandRunner.Kill pid => Some pid
               | _ => None
               end) effs.

(** The entries of a list are in the order of their timestamps. *)
Definition in_time_order (logs : list (option CommandRunner.LogEntry)) : Prop :=
  ∀ (i j : nat) e1 e2,
    (i ≤ j)%nat → logs !! i = Some (Some e1) → logs !! j = Some (Some e2) →
    CommandRunner.timestamp e1 ≤ CommandRunner.timestamp e2.

(** The retained entries are in time order and not later than any
    reading of the clock from the [c]-th on. *)
Definition timely (clock : nat → Z) (c : nat)
    (kept : list CommandRunner.LogEntry) : Prop :=
  in_time_order (Some <$> kept)
  ∧ Forall (λ entry, ∀ k, (c ≤ k)%nat → CommandRunner.timestamp entry ≤ clock k)
      kept.

(** What a call did, seen from outside: the entries it logged. The store
    received exactly these, each with its own reading of the clock, and
    each was notified. *)
Record footprint (s s' : CommandRunner.State)
    (entries : list CommandRunner.LogEntry) : Prop := {
  fp_store :
    CommandRunner.logBuffer (CommandRunner.this s')
    = CircularBuffer.pushes entries
        (CommandRunner.logBuffer (CommandRunner.this s));
  fp_clock :
    CommandRunner.now (CommandRunner.world s')
    = CommandRunner.now (CommandRunner.world s);
  fp_reads :
    CommandRunner.clock_reads (CommandRunner.world s')
    = (CommandRunner.clock_reads (CommandRunner.world s)
       + length entries)%nat;
  fp_stamps :
    CommandRunner.timestamp <$> entries
    = (λ k, CommandRunner.now (CommandRunner.world s)
              (CommandRunner.clock_reads (CommandRunner.world s) + k)%nat)
      <$> seq 0 (length entries);
  fp_notified :
    ∃ effs,
      CommandRunner.trace (CommandRunner.world s')
      = CommandRunner.trace (CommandRunner.world s) ++ effs
      ∧ logged effs = entries
      ∧ CommandRunner.status (CommandRunner.this s')
        = default (CommandRunner.status (CommandRunner.this s))
            (last (status_changes effs))
}.

(** A store of two strings, as the constructor returns it. *)
Definition example_store : CircularBuffer.t string :=
  {| CircularBuffer.buffer := {| Js.Array_length := 2; Js.props := ∅ |};
     CircularBuffer.head := Js.Num 0;
     CircularBuffer.tail := Js.Num 0;
     CircularBuffer.size := Js.Num 0;
     CircularBuffer.capacity := Js.Num 2 |}.

Definition example_ops : list (buffer_op string) :=
  [op_push "a"; op_push "b"; op_push "c"; op_clear; op_push "d"].

(** The runner of the concrete state, started, with its process. *)
Definition example_state_running : CommandRunner.State :=
  {| CommandRunner.this :=
       CommandRunner.set_status CommandRunner.RUNNING
         (CommandRunner.set_process (Some example_pty) example_runner);
     CommandRunner.world := example_world |}.

(** The calls of [pty.spawn] in a run of effects: the executable and the
    argument list of each. *)
Definition spawned (effs : list CommandRunner.Effect)
    : list (string * list string) :=
  omap (λ eff, match eff with
               | CommandRunner.Spawn file args _ => Some (file, args)
               | _ => None
               end) effs.

(** *** A runner with logs

    The runner made with the default buffer size, and the state after it
    was started, printed three chunks of output and was sent a key. *)
Definition roomy_options : CommandRunner.Options.t :=
  {| CommandRunner.Options.command := "test-cmd";
     CommandRunner.Options.args := None;
     CommandRunner.Options.cwd := None;
     CommandRunner.Options.env := None;
     CommandRunner.Options.logBufferSize := None |}.

Definition roomy_runner : CommandRunner.t :=
  {| CommandRunner.process := None;
     CommandRunner.logBuffer :=
       {| CircularBuffer.buffer :=
            {| Js.Array_length := 300; Js.props := ∅ |};
          CircularBuffer.head := Js.Num 0;
          CircularBuffer.tail := Js.Num 0;
          CircularBuffer.size := Js.Num 0;
          CircularBuffer.capacity := Js.Num 300 |};
     CommandRunner.status := CommandRunner.STOPPED;
     CommandRunner.command := "test-cmd";
     CommandRunner.args := [];
     CommandRunner.cwd := "/srv";
     CommandRunner.env := ∅;
     CommandRunner.listeners := λ _, O |}.

Definition roomy_state : CommandRunner.State :=
  {| CommandRunner.this := roomy_runner;
     CommandRunner.world := example_world |}.

Definition busy_calls : list (CommandRunner.M ()) :=
  [CommandRunner.start;
   CommandRunner.onData_listener "output1";
   CommandRunner.onData_listener "output2";
   CommandRunner.write (Js.VString "y");
   CommandRunner.onData_listener "output3"].

Definition busy_state : CommandRunner.State := after busy_calls roomy_state.

(** The entry logged at the [k]-th reading of the clock of
    [example_world]. *)
Definition entry_at (k : Z) (content : string)
    (type : CommandRunner.LogType) : CommandRunner.LogEntry :=
  {| CommandRunner.timestamp := 1700000000000 + k;
     CommandRunner.content := content;
     CommandRunner.type := type |}.

Definition busy_logs : list CommandRunner.LogEntry :=
  [entry_at 0 "Starting command: test-cmd " CommandRunner.system;
   entry_at 1 "output1" CommandRunner.stdout;
   entry_at 2 "output2" CommandRunner.stdout;
   entry_at 3 ("Attempting to write key: "
               +:+ Js.JSON_stringify (Js.VString "y")) CommandRunner.system;
   entry_at 4 "Successfully wrote key" CommandRunner.system;
   entry_at 5 "output3" CommandRunner.stdout].

(** The same runner after it was started and printed 102 lines. *)
Definition long_calls : list (CommandRunner.M ()) :=
  CommandRunner.start
  :: ((λ k : nat, CommandRunner.onData_listener ("line " +:+ pretty k))
        <$> seq 0 102).

Definition long_state : CommandRunner.State := after long_calls roomy_state.

Definition long_logs : list CommandRunner.LogEntry :=
  entry_at 0 "Starting command: test-cmd " CommandRunner.system
  :: ((λ k : nat, entry_at (1 + Z.of_nat k) ("line " +:+ pretty k)
                    CommandRunner.stdout) <$> seq 0 102).

(** ** The bounded log store *)

Section BufferProofs.
Context {T : Type}.
Implicit Types (b : CircularBuffer.t T) (kept xs : list T) (x : T).

Lemma rem_succ_mod a C :
  0 ≤ a → 1 ≤ C →
  Js.rem (Js.add (Js.Num (a mod C)) (Js.Num 1)) (Js.Num C)
  = Js.Num ((a + 1) mod C).
Proof.
  intros Ha HC. simpl. destruct (decide (C = 0)) as [->|_]; [lia|].
  f_equal. rewrite Z.rem_mod_nonneg.
  - by rewrite Zplus_mod_idemp_l.
  - pose proof (Z.mod_pos_bound a C). lia.
  - lia.
Qed.

Lemma mod_apart a c C :
  1 ≤ C → 0 < c - a < C → a mod C ≠ c mod C.
Proof.
  intros HC Hd Heq.
  assert ((c - a) mod C = 0) as H0.
  { by rewrite Zminus_mod, Heq, Z.sub_diag, Zmod_0_l. }
  rewrite Z.mod_small in H0; lia.
Qed.

Lemma new_repr C b :
  CircularBuffer.new (Js.Num C) = Js.Return b → 1 ≤ C → buf_repr C 0 [] b.
Proof.
  unfold CircularBuffer.new, Js.Array_new. intros Hnew HC.
  destruct (decide (0 ≤ C < 2 ^ 32)); [|done].
  injection Hnew as <-. split; simpl; try done; try lia.
Qed.

Lemma push_repr_room C o kept b x :
  buf_repr C o kept b → Z.of_nat (length kept) < C →
  buf_repr C o (kept ++ [x]) (CircularBuffer.push x b).
Proof.
  intros [Hcap HC Ho Hle Hsize Htail Hhead Hcells] Hroom.
  unfold CircularBuffer.push. rewrite Hsize, Hcap, Hhead. simpl Js.lt.
  rewrite bool_decide_eq_true_2 by done.
  rewrite rem_succ_mod by lia.
  split; simpl; try done; rewrite ?length_app; simpl; try lia.
  - f_equal. lia.
  - f_equal. f_equal. lia.
  - intros i Hi. unfold Js.Array_get, Js.Array_set. simpl.
    destruct (decide (i = length kept)) as [->|Hne].
    + rewrite lookup_insert_eq. by rewrite list_lookup_middle.
    + rewrite lookup_insert_ne.
      * rewrite lookup_app_l by lia. apply Hcells. lia.
      * intros [= Heq]. symmetry in Heq. revert Heq.
        apply mod_apart; lia.
Qed.

Lemma push_repr_full C o kept b x :
  buf_repr C o kept b → Z.of_nat (length kept) = C →
  buf_repr C (o + 1) (drop 1 kept ++ [x]) (CircularBuffer.push x b).
Proof.
  intros [Hcap HC Ho Hle Hsize Htail Hhead Hcells] Hfull.
  unfold CircularBuffer.push. rewrite Hsize, Hcap, Hhead, Htail. simpl Js.lt.
  rewrite bool_decide_eq_false_2 by lia.
  rewrite !rem_succ_mod by lia.
  assert (length (drop 1 kept ++ [x]) = length kept) as Hlen.
  { rewrite length_app, length_drop. simpl. lia. }
  split; simpl; try done; rewrite ?Hlen; try lia.
  - done.
  - f_equal. f_equal. lia.
  - intros i Hi. unfold Js.Array_get, Js.Array_set. simpl.
    destruct (decide (S i = length kept)) as [Hlast|Hne].
    + replace (o + 1 + Z.of_nat i) with (o + Z.of_nat (length kept)) by lia.
      rewrite lookup_insert_eq.
      rewrite lookup_app_r by (rewrite length_drop; lia).
      rewrite length_drop.
      by replace (i - (length kept - 1))%nat with O by lia.
    + rewrite lookup_insert_ne.
      * rewrite lookup_app_l by (rewrite length_drop; lia).
        rewrite lookup_drop.
        replace (o + 1 + Z.of_nat i) with (o + Z.of_nat (1 + i)) by lia.
        apply Hcells. lia.
      * intros [= Heq]. symmetry in Heq. revert Heq.
        apply mod_apart; lia.
Qed.

Lemma push_retains C kept b x :
  retains C kept b → retains C (push_kept C kept x) (CircularBuffer.push x b).
Proof.
  intros [o Hrepr]. unfold push_kept. case_bool_decide as Hroom.
  - exists o. by apply push_repr_room.
  - exists (o + 1). apply push_repr_full; [done|].
    pose proof (repr_bounded _ _ _ _ Hrepr). lia.
Qed.

Lemma getAll_loop_repr C o kept b :
  buf_repr C o kept b →
  ∀ (n k : nat) (result : list (option T)),
    (k + n ≤ length kept)%nat →
    CircularBuffer.getAll_loop b n (Js.Num ((o + Z.of_nat k) mod C)) result
    = result ++ (Some <$> take n (drop k kept)).
Proof.
  intros Hrepr n. induction n as [|n IH]; intros k result Hk.
  - simpl. by rewrite app_nil_r.
  - cbn [CircularBuffer.getAll_loop].
    rewrite (repr_capacity _ _ _ _ Hrepr).
    rewrite rem_succ_mod
      by (pose proof (repr_evicted _ _ _ _ Hrepr);
          pose proof (repr_positive _ _ _ _ Hrepr); lia).
    replace (o + Z.of_nat k + 1) with (o + Z.of_nat (S k)) by lia.
    rewrite IH by lia.
    rewrite (repr_cells _ _ _ _ Hrepr) by lia.
    destruct (lookup_lt_is_Some_2 kept k) as [y Hy]; [lia|].
    rewrite Hy, <- assoc_L by apply _. f_equal. simpl.
    rewrite (drop_S _ _ _ Hy). done.
Qed.

Lemma getAll_retains C kept b :
  retains C kept b → CircularBuffer.getAll b = Some <$> kept.
Proof.
  intros [o Hrepr]. unfold CircularBuffer.getAll.
  rewrite (repr_size _ _ _ _ Hrepr), (repr_tail _ _ _ _ Hrepr). simpl.
  rewrite Nat2Z.id.
  replace o with (o + Z.of_nat 0) at 1 by lia.
  rewrite (getAll_loop_repr _ _ _ _ Hrepr) by lia.
  simpl. by rewrite drop_0, firstn_all.
Qed.

Lemma retains_capacity C kept b :
  retains C kept b → CircularBuffer.capacity b = Js.Num C ∧ 1 ≤ C.
Proof.
  intros [o Hrepr].
  split; [by eapply repr_capacity | by eapply repr_positive].
Qed.

End BufferProofs.

Section BufferClaims.
Context {T : Type}.
Implicit Types (b : CircularBuffer.t T) (kept xs : list T) (x : T).

Lemma pushes_retains C kept b xs :
  retains C kept b →
  retains C (foldl (push_kept C) kept xs) (CircularBuffer.pushes xs b).
Proof.
  revert kept b. induction xs as [|x xs IH]; intros kept b Hb; [done|].
  apply IH. by apply push_retains.
Qed.

Lemma foldl_push_kept C xs :
  1 ≤ C →
  foldl (push_kept C) [] xs
  = last_n (Nat.min (length xs) (Z.to_nat C)) xs.
Proof.
  intros HC. induction xs as [|x xs IH] using rev_ind; [done|].
  rewrite foldl_snoc, IH. unfold push_kept, last_n.
  rewrite length_drop, length_app. simpl.
  case_bool_decide as Hroom.
  - replace (length xs - Nat.min (length xs) (Z.to_nat C))%nat with O by lia.
    replace (length xs + 1 - Nat.min (length xs + 1) (Z.to_nat C))%nat
      with O by lia.
    done.
  - rewrite drop_drop, drop_app_le by lia. f_equal. f_equal. lia.
Qed.

Lemma new_total C :
  0 ≤ C < 2 ^ 32 → ∃ b, CircularBuffer.new (T:=T) (Js.Num C) = Js.Return b.
Proof.
  intros HC. unfold CircularBuffer.new, Js.Array_new.
  destruct (decide (0 ≤ C < 2 ^ 32)); [eauto|done].
Qed.

(** C1. In a store of capacity [C >= 1], after the pushes [xs] into the
    fresh store, [getAll()] is the last [min (length xs) C] pushed values,
    oldest first, and has that length; and once [C] or more values were
    pushed, one more push drops exactly the oldest retained entry and
    appends the new one after the others, their order unchanged. *)
Theorem getAll_after_pushes (C : Z) (b0 : CircularBuffer.t T) (xs : list T) :
  1 ≤ C →
  CircularBuffer.new (Js.Num C) = Js.Return b0 →
  let b := CircularBuffer.pushes xs b0 in
  let n := Nat.min (length xs) (Z.to_nat C) in
  CircularBuffer.getAll b = Some <$> last_n n xs
  ∧ length (CircularBuffer.getAll b) = n
  ∧ ∀ x, (Z.to_nat C ≤ length xs)%nat →
      CircularBuffer.getAll (CircularBuffer.push x b)
      = drop 1 (CircularBuffer.getAll b) ++ [Some x].
Proof.
  intros HC Hnew b n.
  assert (retains C (last_n n xs) b) as Hb.
  { subst b n. rewrite <- foldl_push_kept by done.
    apply pushes_retains. exists 0. by apply new_repr. }
  assert (length (last_n n xs) = n) as Hlen.
  { unfold last_n. rewrite length_drop. lia. }
  split; [by apply getAll_retains with C|].
  split; [by rewrite (getAll_retains C _ _ Hb), length_fmap|].
  intros x Hfull.
  rewrite (getAll_retains C _ _ (push_retains C _ _ x Hb)).
  rewrite (getAll_retains C _ _ Hb).
  unfold push_kept. rewrite bool_decide_eq_false_2 by lia.
  by rewrite fmap_app, fmap_drop.
Qed.

(** A store of capacity 0 stays empty: [size] never grows. *)
Lemma push_capacity_zero b x :
  CircularBuffer.capacity b = Js.Num 0 →
  CircularBuffer.size b = Js.Num 0 →
  CircularBuffer.capacity (CircularBuffer.push x b) = Js.Num 0
  ∧ CircularBuffer.size (CircularBuffer.push x b) = Js.Num 0.
Proof.
  intros Hcap Hsize. unfold CircularBuffer.push. by rewrite Hcap, Hsize.
Qed.

Lemma pushes_capacity_zero xs b :
  CircularBuffer.capacity b = Js.Num 0 →
  CircularBuffer.size b = Js.Num 0 →
  CircularBuffer.size (CircularBuffer.pushes xs b) = Js.Num 0.
Proof.
  revert b. induction xs as [|x xs IH]; intros b Hcap Hsize; [done|].
  destruct (push_capacity_zero b x Hcap Hsize) as [Hcap' Hsize'].
  by apply IH.
Qed.

(** C4, as the code has it. Construction with a capacity [C <= 0] is
    rejected only for [C < 0], by the [RangeError] of the array
    allocation; capacity 0 is accepted, and gives a store that retains
    nothing: after any pushes its size is 0 and [getAll()] is empty. *)
Theorem new_without_room (C : Z) :
  C ≤ 0 →
  match CircularBuffer.new (T:=T) (Js.Num C) with
  | Js.Throw e => C < 0 ∧ e = Js.RangeError "Invalid array length"
  | Js.Return b =>
      C = 0 ∧ CircularBuffer.getCapacity b = Js.Num 0
      ∧ ∀ xs, CircularBuffer.getSize (CircularBuffer.pushes xs b) = Js.Num 0
              ∧ CircularBuffer.getAll (CircularBuffer.pushes xs b) = []
  end.
Proof.
  intros HC. unfold CircularBuffer.new, Js.Array_new.
  destruct (decide (0 ≤ C < 2 ^ 32)) as [Hin|Hout].
  - assert (C = 0) as -> by lia.
    split; [done|]. split; [done|]. intros xs.
    unfold CircularBuffer.getSize, CircularBuffer.getAll.
    by rewrite pushes_capacity_zero.
  - split; [lia|done].
Qed.

End BufferClaims.

Lemma getAll_after_pushes_witness :
  CircularBuffer.getAll
    (CircularBuffer.pushes ["a"; "b"; "c"]
       {| CircularBuffer.buffer := {| Js.Array_length := 2; Js.props := ∅ |};
          CircularBuffer.head := Js.Num 0; CircularBuffer.tail := Js.Num 0;
          CircularBuffer.size := Js.Num 0;
          CircularBuffer.capacity := Js.Num 2 |})
  = [Some "b"; Some "c"].
Proof.
  refine (proj1 (getAll_after_pushes 2 _ ["a"; "b"; "c"] _ _)).
  - lia.
  - reflexivity.
Defined.

(** The claim C4 fails at capacity 0: the constructor returns a store. *)
Lemma new_zero_accepted :
  CircularBuffer.new (T:=CommandRunner.LogEntry) (Js.Num 0)
  = Js.Return
      {| CircularBuffer.buffer := {| Js.Array_length := 0; Js.props := ∅ |};
         CircularBuffer.head := Js.Num 0; CircularBuffer.tail := Js.Num 0;
         CircularBuffer.size := Js.Num 0;
         CircularBuffer.capacity := Js.Num 0 |}.
Proof. reflexivity. Qed.

Lemma new_without_room_witness :
  match CircularBuffer.new (T:=string) (Js.Num (-1)) with
  | Js.Throw e => -1 < 0 ∧ e = Js.RangeError "Invalid array length"
  | Js.Return b =>
      -1 = 0 ∧ CircularBuffer.getCapacity b = Js.Num 0
      ∧ ∀ xs, CircularBuffer.getSize (CircularBuffer.pushes xs b) = Js.Num 0
              ∧ CircularBuffer.getAll (CircularBuffer.pushes xs b) = []
  end.
Proof. apply (new_without_room (-1)). lia. Defined.

(** ** The command runner *)

Section RunnerProofs.
Import Js CommandRunner.
Implicit Types (s : State) (r : CommandRunner.t) (w : World).

Local Arguments CircularBuffer.push : simpl never.
Local Arguments CircularBuffer.getAll : simpl never.
Local Arguments String.append : simpl never.
Local Arguments join : simpl never.
Local Arguments Error_toString : simpl never.
Local Arguments JSON_stringify : simpl never.
Local Arguments number_toString : simpl never.

Ltac run :=
  unfold start, stop, write, onExit_listener, onData_listener, setStatus,
    addLogEntry, emit, this_process, pty_write, pty_kill, pty_spawn,
    perform, Date_now, modify_this, modify_world, get_this, try_catch,
    throw;
  unfold mbind, M_bind, mret, M_ret; cbn.

(** *** The log store of a runner *)

Lemma getAll_push C (b : CircularBuffer.t LogEntry) kept entry :
  retains C kept b →
  CircularBuffer.getAll (CircularBuffer.push entry b)
  = push_kept C (CircularBuffer.getAll b) (Some entry).
Proof.
  intros Hb.
  rewrite (getAll_retains C _ _ (push_retains C _ _ entry Hb)).
  rewrite (getAll_retains C _ _ Hb).
  unfold push_kept. rewrite length_fmap.
  case_bool_decide; by rewrite fmap_app, ?fmap_drop.
Qed.

Lemma last_push_kept {A} C (l : list A) x : last (push_kept C l x) = Some x.
Proof. unfold push_kept. case_bool_decide; apply last_snoc. Qed.

Lemma new_runner_ok options w r : new options w = Return r → runner_ok r.
Proof.
  unfold new. intros Hnew.
  destruct (CircularBuffer.new _) as [b|e] eqn:Hb; [|done].
  injection Hnew as <-. unfold runner_ok. simpl.
  destruct (number_or _ _) as [C|] eqn:HC; [|done].
  assert (1 ≤ C) as Hpos.
  { unfold CircularBuffer.new, Array_new in Hb.
    destruct (decide (0 ≤ C < 2 ^ 32)); [|done].
    unfold number_or in HC.
    destruct (Options.logBufferSize options) as [[n|]|];
      simpl in HC; try case_bool_decide; simplify_eq; lia. }
  exists C, []. exists 0. by apply new_repr.
Qed.

Lemma push_runner_ok r entry :
  runner_ok r →
  runner_ok (set_logBuffer (CircularBuffer.push entry (logBuffer r)) r).
Proof.
  intros (C & kept & Hb). exists C, (push_kept C kept entry).
  by apply push_retains.
Qed.

(** Every method keeps the log store well formed. *)
Lemma onData_listener_ok data s :
  runner_ok (this s) → runner_ok (this (onData_listener data s).2).
Proof. intros Hok. run. by apply push_runner_ok. Qed.

Lemma onExit_listener_ok exitCode signal s :
  runner_ok (this s) →
  runner_ok (this (onExit_listener exitCode signal s).2).
Proof.
  intros Hok. run.
  by apply (push_runner_ok (this s)).
Qed.

Lemma stop_ok s : runner_ok (this s) → runner_ok (this (stop s).2).
Proof.
  intros Hok. run.
  destruct (process (this s)) as [p|] eqn:Hp; cbn; [|done].
  case_bool_decide; cbn; [|done].
  rewrite Hp. cbn.
  destruct (Pty.kill_throws p); cbn; by apply (push_runner_ok (this s)).
Qed.

Lemma write_ok data s : runner_ok (this s) → runner_ok (this (write data s).2).
Proof.
  intros Hok. run.
  destruct (process (this s)) as [p|] eqn:Hp; cbn.
  - case_bool_decide; cbn.
    + rewrite Hp. cbn.
      destruct (Pty.write_throws p data); cbn;
        by do 2 apply push_runner_ok.
    + by apply push_runner_ok.
  - by apply push_runner_ok.
Qed.

Lemma start_ok s : runner_ok (this s) → runner_ok (this (start s).2).
Proof.
  intros Hok. run.
  destruct (spawn_outcome _ _) as [p|e]; cbn.
  - by apply (push_runner_ok (this s)).
  - destruct (decide _); cbn;
      apply (push_runner_ok (set_logBuffer _ (this s)));
      by apply push_runner_ok.
Qed.

Lemma on_ok name s : runner_ok (this s) → runner_ok (this (on name s).2).
Proof. done. Qed.

(** So the log store is well formed in every state a runner reaches from
    its constructor. *)
Lemma reachable_ok options w r ms :
  new options w = Return r →
  Forall is_method ms →
  runner_ok (this (after ms {| this := r; world := w |})).
Proof.
  intros Hnew%new_runner_ok Hms.
  change r with (this {| this := r; world := w |}) in Hnew.
  revert Hnew. generalize {| this := r; world := w |}.
  induction Hms as [|m ms Hm _ IH]; intros s Hs; [done|].
  apply IH. destruct Hm.
  - by apply start_ok.
  - by apply stop_ok.
  - by apply write_ok.
  - by apply on_ok.
  - by apply onData_listener_ok.
  - by apply onExit_listener_ok.
Qed.

(** *** Lifecycle *)

(** C2. When [pty.spawn] returns the process [p], [start()] returns with
    the status RUNNING and [p] owned, and among its effects there is
    exactly one status notification, of RUNNING. When the exit listener
    it registered is later called, in whatever state the runner then is,
    the status becomes STOPPED, the process handle is released, and the
    effects are, in order: a log notification of a [system] entry, which
    is then the last entry of [getLogs()], the notification of STOPPED,
    and the [exit] notification with the exit code and the signal. *)
Theorem start_runs_and_exit_stops s p :
  spawn_outcome (world s) (spawn_calls (world s)) = Return p →
  let s1 := (start s).2 in
  (start s).1 = Return ()
  ∧ getStatus (this s1) = RUNNING
  ∧ process (this s1) = Some p
  ∧ (∃ effs, trace (world s1) = trace (world s) ++ effs
             ∧ status_changes effs = [RUNNING]
             ∧ OnExit (Pty.pid p) ∈ effs)
  ∧ ∀ s2 exitCode signal,
      runner_ok (this s2) →
      let s3 := (onExit_listener exitCode signal s2).2 in
      (onExit_listener exitCode signal s2).1 = Return ()
      ∧ getStatus (this s3) = STOPPED
      ∧ process (this s3) = None
      ∧ ∃ entry,
          type entry = system
          ∧ trace (world s3)
            = trace (world s2)
              ++ [Emit (log entry); Emit (statusChange STOPPED);
                  Emit (exit exitCode signal)]
          ∧ last (getLogs (this s3)) = Some (Some entry).
Proof.
  intros Hp. run. rewrite Hp. cbn.
  repeat split.
  - eexists. split.
    + rewrite <- !(assoc_L (++)). reflexivity.
    + split; [done|]. set_solver.
  - eexists. split; [|split]; cycle 1.
    + by rewrite <- !(assoc_L (++)).
    + destruct H as (C & kept & Hb). unfold getLogs. cbn.
      rewrite (getAll_push C _ kept) by done. apply last_push_kept.
    + reflexivity.
Qed.

(** C3. When [pty.spawn] throws [e], [start()] leaves the status ERROR,
    has notified [error] with [e] as its last effect, and [getLogs()]
    holds a [system] entry whose text ends with the text of [e];
    [pty.spawn] was called once. The call returns when [error] has a
    listener; without one, [emit] throws [e] again. *)
Theorem start_spawn_failure s e :
  spawn_outcome (world s) (spawn_calls (world s)) = Throw e →
  runner_ok (this s) →
  let s1 := (start s).2 in
  getStatus (this s1) = ERROR
  ∧ spawn_calls (world s1) = S (spawn_calls (world s))
  ∧ (∃ entry,
       type entry = system
       ∧ content entry = "Error starting command: " +:+ Error_toString e
       ∧ Some entry ∈ getLogs (this s1)
       ∧ ∃ effs, trace (world s1)
                 = trace (world s) ++ effs
                   ++ [Emit (statusChange ERROR); Emit (log entry);
                       Emit (error e)])
  ∧ (start s).1
    = if decide (listeners (this s) on_error = O) then Throw e
      else Return ().
Proof.
  intros He Hok. run. rewrite He. cbn.
  destruct (decide (listeners (this s) on_error = O)) as [Hl|Hl]; cbn.
  all: split; [done|]; split; [done|]; split; [|done].
  all: eexists; split; [|split; [|split]]; cycle 3.
  all: try (eexists [_; _]; rewrite <- !(assoc_L (++)); reflexivity).
  all: try (cbn; reflexivity).
  all: unfold getLogs; cbn.
  all: apply (push_runner_ok _ (entry_in (world s) ("Starting command: " +:+ command (this s) +:+ " "
                   +:+ join " " (args (this s))) system)) in Hok.
  all: destruct Hok as (C & kept & Hb).
  all: rewrite (getAll_push C _ kept) by exact Hb.
  all: apply list_elem_of_lookup; eexists.
  all: rewrite <- last_lookup; apply last_push_kept.
Qed.

(** *** Writing *)

(** C5. While the runner owns no process or is not RUNNING, [write(data)]
    returns without throwing, leaves the status as it was, forwards
    nothing to a process, and appends one [system] entry, the rejection:
    its only effect is the log notification of that entry, and
    [getLogs()] becomes the former logs with that entry pushed. *)
Theorem write_rejected_when_not_running s (data : string) :
  process (this s) = None ∨ getStatus (this s) ≠ RUNNING →
  runner_ok (this s) →
  let s1 := (write (VString data) s).2 in
  (write (VString data) s).1 = Return ()
  ∧ getStatus (this s1) = getStatus (this s)
  ∧ process (this s1) = process (this s)
  ∧ ∃ entry,
      type entry = system
      ∧ content entry = "Cannot write to process: not running"
      ∧ trace (world s1) = trace (world s) ++ [Emit (log entry)]
      ∧ forwarded (trace (world s1)) = forwarded (trace (world s))
      ∧ ∃ C, CircularBuffer.getCapacity (logBuffer (this s)) = Num C
             ∧ getLogs (this s1) = push_kept C (getLogs (this s)) (Some entry).
Proof.
  intros Hidle (C & kept & Hb). unfold getStatus in *. run.
  assert (bool_decide (is_Some (process (this s)))
          && bool_decide (status (this s) = RUNNING) = false) as ->.
  { destruct Hidle as [->|Hst].
    - rewrite bool_decide_eq_false_2; [done|]. by intros [? ?].
    - rewrite (bool_decide_eq_false_2 (_ = _)) by done.
      by rewrite andb_false_r. }
  cbn. do 3 (split; [done|]).
  exists (entry_in (world s) "Cannot write to process: not running" system).
  do 3 (split; [done|]).
  split; [unfold forwarded; by rewrite omap_app, app_nil_r|].
  exists C. split; [apply (proj1 (retains_capacity _ _ _ Hb))|].
  unfold getLogs. cbn. by apply getAll_push with kept.
Qed.

(** C6. When a RUNNING runner owns the process [p] and [p.write(data)]
    throws [e], [write(data)] returns without throwing and leaves the
    status and the handle as they were; its effects are the log
    notification of the attempt, the call of [p.write], and the log
    notification of a [system] entry with the text of [e]: no [error]
    event and no status change. *)
Theorem write_failure_is_logged s p (data : string) e :
  process (this s) = Some p →
  getStatus (this s) = RUNNING →
  Pty.write_throws p (VString data) = Some e →
  runner_ok (this s) →
  let s1 := (write (VString data) s).2 in
  (write (VString data) s).1 = Return ()
  ∧ getStatus (this s1) = RUNNING
  ∧ process (this s1) = Some p
  ∧ ∃ attempt failure,
      type attempt = system
      ∧ type failure = system
      ∧ content failure = "Failed to write key: " +:+ Error_toString e
      ∧ trace (world s1)
        = trace (world s)
          ++ [Emit (log attempt); Write (Pty.pid p) (VString data);
              Emit (log failure)]
      ∧ last (getLogs (this s1)) = Some (Some failure).
Proof.
  intros Hp Hst He Hok. unfold getStatus in *. run.
  rewrite Hp, Hst. cbn. rewrite bool_decide_eq_true_2 by done.
  rewrite Hp. cbn. rewrite He. cbn.
  do 3 (split; [done|]).
  eexists _, _. split; [|split; [|split; [|split]]]; cycle 3.
  - rewrite <- !(assoc_L (++)). reflexivity.
  - unfold getLogs. cbn.
    destruct Hok as (C & kept & Hb).
    rewrite (getAll_push C _ (push_kept C kept _))
      by (by apply push_retains).
    apply last_push_kept.
  - reflexivity.
  - reflexivity.
  - reflexivity.
Qed.

(** *** Stopping *)

(** C7. While the runner owns no process or is not RUNNING, [stop()]
    returns and changes nothing: the runner, with its status and log
    store, and the world, with its trace of effects, are as before; so
    no entry is logged and no process is signalled. *)
Theorem stop_when_not_running_is_noop s :
  process (this s) = None ∨ getStatus (this s) ≠ RUNNING →
  stop s = (Return (), s).
Proof.
  intros Hidle. unfold getStatus in *. run.
  assert (bool_decide (is_Some (process (this s)))
          && bool_decide (status (this s) = RUNNING) = false) as ->.
  { destruct Hidle as [->|Hst].
    - rewrite bool_decide_eq_false_2; [done|]. by intros [? ?].
    - rewrite (bool_decide_eq_false_2 (_ = _)) by done.
      by rewrite andb_false_r. }
  done.
Qed.

(** *** Construction *)

(** C10. A [logBufferSize] of 0 is replaced by the default: the
    constructor returns the runner it returns when the option is left
    out, and the capacity of its log store is 300. *)
Theorem logBufferSize_zero_is_default command args cwd env w :
  let zero := {| Options.command := command; Options.args := args;
                 Options.cwd := cwd; Options.env := env;
                 Options.logBufferSize := Some (Num 0) |} in
  let omitted := {| Options.command := command; Options.args := args;
                    Options.cwd := cwd; Options.env := env;
                    Options.logBufferSize := None |} in
  new zero w = new omitted w
  ∧ ∃ r, new zero w = Return r
         ∧ CircularBuffer.getCapacity (logBuffer r) = Num 300.
Proof. cbn. split; [done|]. eexists. by split. Qed.

End RunnerProofs.

(** ** Argument parsing *)

Section ParsingProofs.
Import Js CommandRunner.

Lemma split_space_piece piece :
  has_space piece = false → split_space piece = [piece].
Proof.
  induction piece as [|c piece IH]; [done|]. simpl.
  intros [Hc Hpiece]%orb_false_iff.
  apply bool_decide_eq_false in Hc.
  destruct (decide (c = space)); [done|]. by rewrite IH.
Qed.

Lemma split_space_cons piece rest :
  has_space piece = false →
  split_space (piece +:+ " " +:+ rest) = piece :: split_space rest.
Proof.
  induction piece as [|c piece IH]; [done|]. simpl.
  intros [Hc Hpiece]%orb_false_iff.
  apply bool_decide_eq_false in Hc.
  destruct (decide (c = space)); [done|].
  simpl in IH. by rewrite IH.
Qed.

(** Splitting undoes joining with single spaces. *)
Lemma split_space_join piece pieces :
  Forall (λ p, has_space p = false) (piece :: pieces) →
  split_space (join " " (piece :: pieces)) = piece :: pieces.
Proof.
  revert piece. induction pieces as [|q pieces IH]; intros piece Hall.
  - apply split_space_piece. by inversion Hall.
  - inversion Hall as [|? ? Hpiece Hrest]; subst.
    change (join " " (piece :: q :: pieces))
      with (piece +:+ " " +:+ join " " (q :: pieces)).
    rewrite split_space_cons by done. by rewrite IH.
Qed.

(** Every string is such a join, of its own pieces. *)
Lemma join_split_space s :
  ∃ piece pieces,
    split_space s = piece :: pieces
    ∧ Forall (λ p, has_space p = false) (piece :: pieces)
    ∧ join " " (piece :: pieces) = s.
Proof.
  induction s as [|c s (piece & pieces & Hsplit & Hall & Hjoin)].
  - exists EmptyString, []. by repeat constructor.
  - simpl. rewrite Hsplit. destruct (decide (c = space)) as [->|Hc].
    + exists EmptyString, (piece :: pieces).
      split; [done|]. split; [by constructor|].
      change (join " " (EmptyString :: piece :: pieces))
        with (String space (join " " (piece :: pieces))).
      by rewrite Hjoin.
    + exists (String c piece), pieces. split; [done|].
      inversion Hall; subst. split.
      * constructor; [|done]. simpl.
        by rewrite bool_decide_eq_false_2.
      * destruct pieces; simpl in *; by rewrite ?Hjoin.
Qed.

End ParsingProofs.

(** The claim C8 fails where the whitespace is not one single space: a tab
    does not separate, and two spaces enclose an empty argument. *)
Lemma constructor_not_on_whitespace :
  let tabbed := "ls" +:+ Server.TAB +:+ "-l" in
  let spaced := "ls  -l" in
  let options command :=
    {| CommandRunner.Options.command := command;
       CommandRunner.Options.args := Some ["-a"];
       CommandRunner.Options.cwd := None;
       CommandRunner.Options.env := None;
       CommandRunner.Options.logBufferSize := None |} in
  let parsed command :=
    match CommandRunner.new (options command) example_world with
    | Js.Return r => Some (CommandRunner.command r, CommandRunner.args r)
    | Js.Throw _ => None
    end in
  parsed tabbed = Some (tabbed, ["-a"])
  ∧ split_on_whitespace tabbed ["-a"] = ("ls", ["-l"; "-a"])
  ∧ parsed spaced = Some ("ls", [EmptyString; "-l"; "-a"])
  ∧ split_on_whitespace spaced ["-a"] = ("ls", ["-l"; "-a"]).
Proof. vm_compute. done. Qed.

(** ** The [sendKeyPress] tool *)

Section ServerProofs.
Import Js CommandRunner Server.

Local Arguments CircularBuffer.push : simpl never.
Local Arguments String.append : simpl never.
Local Arguments Error_toString : simpl never.
Local Arguments JSON_stringify : simpl never.

(** [write] never throws. *)
Lemma write_returns data s : (write data s).1 = Return ().
Proof.
  unfold write, addLogEntry, emit, this_process, pty_write, perform,
    Date_now, modify_this, modify_world, get_this, try_catch, throw.
  unfold mbind, M_bind, mret, M_ret. cbn.
  destruct (process (this s)) as [p|] eqn:Hp; cbn; [|done].
  case_bool_decide; cbn; [|done].
  rewrite Hp. cbn.
  by destruct (Pty.write_throws p data).
Qed.

Lemma sendKeyPress_not_running key s :
  getStatus (this s) ≠ RUNNING →
  sendKeyPress key s
  = (Return {| text := "Command is not running"; isError := true |}, s).
Proof.
  intros Hst. unfold sendKeyPress, get_this, mbind, M_bind. cbn.
  by rewrite bool_decide_eq_true_2.
Qed.

(** C9, as the code has it. While the runner is RUNNING, the tool calls
    [write] with [keyToSend key] and reports success. The key name is
    looked up in lower case: [enter] and [return] give a carriage
    return, [space] a space, [tab] a tab, [escape] the escape character,
    [backspace] the delete character; there is no entry for an arrow
    key. A key whose lower-case form is none of these names, nor one of
    the two names the table inherits, is passed on as it is. *)
Theorem sendKeyPress_key_table key s :
  getStatus (this s) = RUNNING →
  sendKeyPress key s
  = (Return {| text := "Key sent successfully"; isError := false |},
     (write (keyToSend key) s).2)
  ∧ (toLowerCase key ∈ ["enter"; "return"] → keyToSend key = VString CR)
  ∧ (toLowerCase key = "space" → keyToSend key = VString " ")
  ∧ (toLowerCase key = "tab" → keyToSend key = VString TAB)
  ∧ (toLowerCase key = "escape" → keyToSend key = VString ESC)
  ∧ (toLowerCase key = "backspace" → keyToSend key = VString DEL)
  ∧ (toLowerCase key ∉ key_names ++ inherited_names →
     keyToSend key = VString key).
Proof.
  intros Hst. split.
  - unfold sendKeyPress, get_this, mbind, M_bind. cbn.
    rewrite bool_decide_eq_false_2 by (by intros []).
    pose proof (write_returns (keyToSend key) s) as Hret.
    destruct (write (keyToSend key) s) as [c s1]. simpl in *. by subst c.
  - unfold keyToSend, keyMap, key_names, inherited_names.
    repeat split.
    + intros [->| ->%list_elem_of_singleton]%elem_of_cons; done.
    + by intros ->.
    + by intros ->.
    + by intros ->.
    + by intros ->.
    + intros Hother. repeat case_decide; try done; set_solver.
Qed.

End ServerProofs.

(** The claim C9 fails on the arrow keys and on the other strings: no key
    but the control sequence itself is sent as the sequence of an arrow
    key, so that a name such as [up] goes to the process as the text
    [up]; and [return], or [ENTER] in upper case, is not passed on
    unchanged. *)
Lemma arrow_keys_not_in_key_table :
  (∀ key seq, seq ∈ arrow_sequences →
     Server.keyToSend key = Js.VString seq → key = seq)
  ∧ Server.keyToSend "up" = Js.VString "up"
  ∧ Server.keyToSend "ArrowUp" = Js.VString "ArrowUp"
  ∧ Server.keyToSend "return" = Js.VString Server.CR
  ∧ Server.keyToSend "ENTER" = Js.VString Server.CR.
Proof.
  split; [|by vm_compute].
  intros key seq Hseq. unfold Server.keyToSend, Server.keyMap.
  repeat case_decide; simpl; intros [= <-]; try done.
  all: unfold arrow_sequences in Hseq.
  all: repeat (apply elem_of_cons in Hseq as [Hseq|Hseq];
               [discriminate Hseq|]).
  all: by apply elem_of_nil in Hseq.
Qed.

Lemma sendKeyPress_key_table_witness :
  Server.sendKeyPress "Enter" example_state_deaf
  = (Js.Return {| Server.text := "Key sent successfully";
                  Server.isError := false |},
     (CommandRunner.write (Js.VString Server.CR) example_state_deaf).2).
Proof.
  exact (proj1 (sendKeyPress_key_table "Enter" example_state_deaf eq_refl)).
Defined.

(** ** The claims on the concrete runner *)

Lemma example_runner_new :
  CommandRunner.new example_options example_world = Js.Return example_runner.
Proof. reflexivity. Qed.

Lemma example_runner_ok : runner_ok example_runner.
Proof. exact (new_runner_ok _ _ _ example_runner_new). Qed.

Lemma start_runs_and_exit_stops_witness :
  (CommandRunner.start example_state).1 = Js.Return ()
  ∧ CommandRunner.getStatus (CommandRunner.this
                               (CommandRunner.start example_state).2)
    = CommandRunner.RUNNING.
Proof.
  pose proof (start_runs_and_exit_stops example_state example_pty eq_refl)
    as (Hreturn & Hstatus & _).
  exact (conj Hreturn Hstatus).
Defined.

Lemma start_spawn_failure_witness :
  CommandRunner.getStatus (CommandRunner.this
                             (CommandRunner.start example_state_no_spawn).2)
  = CommandRunner.ERROR
  ∧ (CommandRunner.start example_state_no_spawn).1 = Js.Return ().
Proof.
  pose proof (start_spawn_failure example_state_no_spawn spawn_error
                eq_refl example_runner_ok) as (Hstatus & _ & _ & Hreturn).
  exact (conj Hstatus Hreturn).
Defined.

Lemma write_rejected_when_not_running_witness :
  (CommandRunner.write (Js.VString "test input") example_state).1
  = Js.Return ().
Proof.
  exact (proj1 (write_rejected_when_not_running example_state "test input"
                  (or_introl eq_refl) example_runner_ok)).
Defined.

Lemma write_failure_is_logged_witness :
  (CommandRunner.write (Js.VString "test") example_state_deaf).1
  = Js.Return ().
Proof.
  exact (proj1 (write_failure_is_logged example_state_deaf deaf_pty "test"
                  write_error eq_refl eq_refl eq_refl example_runner_ok)).
Defined.

Lemma stop_when_not_running_is_noop_witness :
  CommandRunner.stop example_state = (Js.Return (), example_state).
Proof.
  exact (stop_when_not_running_is_noop example_state (or_introl eq_refl)).
Defined.

(** ** The repository's tests, replayed on the model *)

Section Tests.
Import Js CommandRunner.

(** buffer.test.ts, "should overwrite old items when full". *)
Example test_overwrite :
  (λ b, (CircularBuffer.getSize b, CircularBuffer.getAll b))
    <$> (match CircularBuffer.new (Num 3) with
         | Return b => Some (CircularBuffer.pushes [1; 2; 3; 4] b)
         | Throw _ => None
         end)
  = Some (Num 3, [Some 2; Some 3; Some 4]).
Proof. reflexivity. Qed.

(** buffer.test.ts, "should remove all items from the buffer"; [clear]
    empties any store. *)
Lemma clear_empties {T} (b : CircularBuffer.t T) :
  CircularBuffer.getSize (CircularBuffer.clear b) = Num 0
  ∧ CircularBuffer.getAll (CircularBuffer.clear b) = [].
Proof. done. Qed.

(** "should parse command and arguments correctly". *)
Example test_parse :
  match new example_options_args example_world with
  | Return r =>
      trace (world (start {| this := r; world := example_world |}).2) !! 1%nat
  | Throw _ => None
  end
  = Some (Spawn "test-cmd" ["arg1"; "arg2"; "arg3"]
            (spawn_options example_runner_args)).
Proof. reflexivity. Qed.

(** "should respect log buffer size": the start announcement is evicted. *)
Example test_buffer_size :
  contents (this (after [start; onData_listener "output1";
                         onData_listener "output2";
                         onData_listener "output3"] example_state))
  = [Some "output2"; Some "output3"].
Proof. reflexivity. Qed.

(** "should handle process exit". *)
Example test_exit :
  let s := after [start; onExit_listener (Num 0) None] example_state in
  getStatus (this s) = STOPPED
  ∧ process (this s) = None
  ∧ last (trace (world s)) = Some (Emit (exit (Num 0) None))
  ∧ last (contents (this s))
    = Some (Some "Process exited with code 0 and signal none").
Proof. vm_compute. done. Qed.

(** "should handle spawn errors". *)
Example test_spawn_error :
  let s := after [start] example_state_no_spawn in
  getStatus (this s) = ERROR
  ∧ last (trace (world s)) = Some (Emit (error spawn_error))
  ∧ last (contents (this s))
    = Some (Some "Error starting command: Error: Spawn error").
Proof. vm_compute. done. Qed.

(** "should handle write errors". *)
Example test_write_error :
  last (contents (this (after [write (VString "test")] example_state_deaf)))
  = Some (Some "Failed to write key: Error: Write error").
Proof. reflexivity. Qed.

(** "should not write when process is stopped". *)
Example test_write_stopped :
  let s := after [write (VString "test input")] example_state in
  forwarded (trace (world s)) = []
  ∧ contents (this s) = [Some "Cannot write to process: not running"].
Proof. vm_compute. done. Qed.

End Tests.

(** ** Further properties of the bounded log store *)

Section BufferMore.
Context {T : Type}.
Implicit Types (b : CircularBuffer.t T) (kept xs : list T).

Lemma clear_retains C kept b :
  retains C kept b → retains C [] (CircularBuffer.clear b).
Proof.
  intros [o [Hcap HC Ho Hle Hsize Htail Hhead Hcells]].
  exists 0. split; simpl; try done; try lia.
Qed.

Lemma apply_ops_retains C kept b ops :
  retains C kept b →
  retains C (foldl (queue_op C) kept ops) (apply_ops ops b).
Proof.
  revert kept b. induction ops as [|op ops IH]; intros kept b Hb; [done|].
  apply IH. destruct op; simpl.
  - by apply push_retains.
  - by apply clear_retains with kept.
Qed.

Lemma retains_size C kept b :
  retains C kept b →
  CircularBuffer.getSize b = Js.Num (Z.of_nat (length kept))
  ∧ Z.of_nat (length kept) ≤ C.
Proof.
  intros [o Hrepr]. split; [apply (repr_size _ _ _ _ Hrepr)|].
  apply (repr_bounded _ _ _ _ Hrepr).
Qed.

(** X1. A store built with a capacity [C >= 1] and then pushed to and
    cleared in any order is a bounded queue: [getAll()] is the content of
    the queue with the same operations, oldest first, with no [undefined]
    among its elements; [getSize()] is the number of these elements and
    never exceeds [C]; and [getCapacity()] stays [C]. *)
Theorem store_is_bounded_queue (C : Z) (b0 : CircularBuffer.t T)
    (ops : list (buffer_op T)) :
  1 ≤ C →
  CircularBuffer.new (Js.Num C) = Js.Return b0 →
  let b := apply_ops ops b0 in
  CircularBuffer.getAll b = Some <$> queue_ops C ops
  ∧ CircularBuffer.getSize b
    = Js.Num (Z.of_nat (length (CircularBuffer.getAll b)))
  ∧ Z.of_nat (length (CircularBuffer.getAll b)) ≤ C
  ∧ CircularBuffer.getCapacity b = Js.Num C.
Proof.
  intros HC Hnew b.
  assert (retains C (queue_ops C ops) b) as Hb.
  { apply apply_ops_retains. exists 0. by apply new_repr. }
  rewrite (getAll_retains C _ _ Hb), length_fmap.
  destruct (retains_size C _ _ Hb) as [Hsize Hle].
  repeat split; try done.
  apply (retains_capacity C _ _ Hb).
Qed.

(** X2. [clear()] forgets everything: whatever was pushed and cleared
    before, after a [clear()] the pushes [xs] leave the store with the
    logs they leave in a new store of the same capacity. *)
Theorem clear_gives_new_store (C : Z) (b0 : CircularBuffer.t T)
    (ops : list (buffer_op T)) (xs : list T) :
  1 ≤ C →
  CircularBuffer.new (Js.Num C) = Js.Return b0 →
  CircularBuffer.getAll
    (CircularBuffer.pushes xs (CircularBuffer.clear (apply_ops ops b0)))
  = CircularBuffer.getAll (CircularBuffer.pushes xs b0).
Proof.
  intros HC Hnew.
  assert (retains C [] b0) as Hb0 by (exists 0; by apply new_repr).
  pose proof (apply_ops_retains C [] b0 ops Hb0) as Hb.
  apply clear_retains in Hb.
  rewrite (getAll_retains C _ _ (pushes_retains C _ _ xs Hb)).
  by rewrite (getAll_retains C _ _ (pushes_retains C _ _ xs Hb0)).
Qed.

Lemma apply_op_within C b op : 1 ≤ C → within C b → within C (apply_op b op).
Proof.
  intros HC (Hcap & (h & Hhead & Hh) & Hlen & Hcells).
  destruct op as [item|]; simpl.
  - assert (Js.rem (Js.add (Js.Num h) (Js.Num 1)) (Js.Num C)
            = Js.Num ((h + 1) mod C)) as Hrem.
    { simpl. destruct (decide (C = 0)); [lia|].
      by rewrite Z.rem_mod_nonneg by lia. }
    assert (∀ b', CircularBuffer.capacity b' = Js.Num C →
              CircularBuffer.head b' = Js.Num ((h + 1) mod C) →
              CircularBuffer.buffer b'
              = Js.Array_set (CircularBuffer.buffer b) (Js.Num h) item →
              within C b') as Hwithin.
    { intros b' Hcap' Hhead' Hbuffer'. split; [done|]. split.
      - exists ((h + 1) mod C). split; [done|]. apply Z.mod_pos_bound. lia.
      - rewrite Hbuffer'. unfold Js.Array_set. simpl. split.
        + case_decide; lia.
        + intros k [v Hk]. destruct (decide (k = Js.Num h)) as [->|Hne].
          * by exists h.
          * rewrite lookup_insert_ne in Hk by done. apply Hcells. by exists v. }
    unfold CircularBuffer.push. rewrite Hhead, Hcap, Hrem.
    destruct (Js.lt _ _); by apply Hwithin.
  - split; [done|]. split; [exists 0; split; [done|lia]|]. by split.
Qed.

(** X3. The array behind a store built with a capacity [C >= 1] never
    grows: after any pushes and clears its length is still [C], and the
    only cells that hold a value are indices from 0 to [C - 1]. *)
Theorem store_never_grows (C : Z) (b0 : CircularBuffer.t T)
    (ops : list (buffer_op T)) :
  1 ≤ C →
  CircularBuffer.new (Js.Num C) = Js.Return b0 →
  let b := apply_ops ops b0 in
  Js.Array_length (CircularBuffer.buffer b) = C
  ∧ ∀ k, is_Some (Js.props (CircularBuffer.buffer b) !! k) →
         ∃ i, k = Js.Num i ∧ 0 ≤ i < C.
Proof.
  intros HC Hnew b.
  assert (within C b) as (_ & _ & Hlen & Hcells); [|done].
  subst b. assert (within C b0) as Hb0.
  { unfold CircularBuffer.new, Js.Array_new in Hnew.
    destruct (decide (0 ≤ C < 2 ^ 32)); [|done]. injection Hnew as <-.
    split; [done|]. split; [exists 0; split; [done|lia]|]. split; [done|].
    simpl. intros k [v Hk]. by rewrite lookup_empty in Hk. }
  clear Hnew. revert b0 Hb0.
  induction ops as [|op ops IH]; intros b0 Hb0; [done|].
  apply IH. by apply apply_op_within.
Qed.

End BufferMore.

(** ** Further properties of the command runner *)

Section RunnerMore.
Import Js CommandRunner.
Implicit Types (s : State) (r : CommandRunner.t) (w : World).

Local Arguments CircularBuffer.push : simpl never.
Local Arguments CircularBuffer.getAll : simpl never.
Local Arguments String.append : simpl never.
Local Arguments join : simpl never.
Local Arguments Error_toString : simpl never.
Local Arguments JSON_stringify : simpl never.
Local Arguments number_toString : simpl never.

Ltac exec :=
  unfold start, stop, write, onExit_listener, onData_listener, on, setStatus,
    addLogEntry, emit, this_process, pty_write, pty_kill, pty_spawn,
    perform, Date_now, modify_this, modify_world, get_this, try_catch,
    throw;
  unfold mbind, M_bind, mret, M_ret; cbn.

(** Closes a footprint goal on an explicit final state: the new effects
    are read off the trace, and the entries off the effects. *)
Ltac footprint_of_trace :=
  eexists; split; cycle 4;
  [ first
      [ exists []; cbn; split; [by rewrite app_nil_r|]; split; reflexivity
      | eexists; cbn; split;
        [rewrite <- ?(assoc_L (++)); reflexivity|]; split; reflexivity ]
  | cbn; reflexivity
  | cbn; reflexivity
  | cbn; lia
  | cbn; repeat (f_equal; try lia) ].

Lemma onData_listener_footprint data s :
  ∃ entries, footprint s (onData_listener data s).2 entries.
Proof. exec. footprint_of_trace. Qed.

Lemma onExit_listener_footprint exitCode signal s :
  ∃ entries, footprint s (onExit_listener exitCode signal s).2 entries.
Proof. exec. footprint_of_trace. Qed.

Lemma on_footprint name s : ∃ entries, footprint s (on name s).2 entries.
Proof. exec. footprint_of_trace. Qed.

Lemma stop_footprint s : ∃ entries, footprint s (stop s).2 entries.
Proof.
  exec. destruct (process (this s)) as [p|] eqn:Hp; cbn.
  - case_bool_decide as Hst; cbn.
    + rewrite Hp. cbn.
      destruct (Pty.kill_throws p); cbn; footprint_of_trace.
    + footprint_of_trace.
  - footprint_of_trace.
Qed.

Lemma write_footprint data s : ∃ entries, footprint s (write data s).2 entries.
Proof.
  exec. destruct (process (this s)) as [p|] eqn:Hp; cbn.
  - case_bool_decide as Hst; cbn.
    + rewrite Hp. cbn.
      destruct (Pty.write_throws p data); cbn; footprint_of_trace.
    + footprint_of_trace.
  - footprint_of_trace.
Qed.

Lemma start_footprint s : ∃ entries, footprint s (start s).2 entries.
Proof.
  exec. destruct (spawn_outcome _ _) as [p|e]; cbn.
  - footprint_of_trace.
  - destruct (decide _); cbn; footprint_of_trace.
Qed.

Lemma method_footprint m s :
  is_method m → ∃ entries, footprint s (m s).2 entries.
Proof.
  intros [].
  - apply start_footprint.
  - apply stop_footprint.
  - apply write_footprint.
  - apply on_footprint.
  - apply onData_listener_footprint.
  - apply onExit_listener_footprint.
Qed.

(** X4. Whatever is called on a runner, in whatever state, what the
    listeners are told agrees with the state: the log store received
    exactly the entries notified by [log] events during the call, in that
    order, and the status afterwards is the last one notified by a
    [statusChange] during the call, or the former status when there was
    none. The trace of effects only grows. *)
Theorem notifications_agree m s :
  is_method m →
  ∃ effs,
    trace (world (m s).2) = trace (world s) ++ effs
    ∧ logBuffer (this (m s).2)
      = CircularBuffer.pushes (logged effs) (logBuffer (this s))
    ∧ getStatus (this (m s).2)
      = default (getStatus (this s)) (last (status_changes effs)).
Proof.
  intros Hm. destruct (method_footprint m s Hm) as [entries Hfp].
  destruct (fp_notified _ _ _ Hfp) as (effs & Htrace & Hlogged & Hstatus).
  exists effs. split; [done|]. split; [|done].
  rewrite Hlogged. apply (fp_store _ _ _ Hfp).
Qed.

(** *** Timestamps *)

Lemma timely_push clock c C kept entry :
  (∀ i j, (i ≤ j)%nat → clock i ≤ clock j) →
  timely clock c kept →
  timestamp entry = clock c →
  timely clock (S c) (push_kept C kept entry).
Proof.
  intros Hmono [Horder Hbound] Hstamp.
  assert (timely clock (S c) (kept ++ [entry])) as [Horder' Hbound'].
  { split.
    - intros i j e1 e2 Hij. rewrite !list_lookup_fmap.
      intros H1 H2.
      destruct (decide (j < length kept)%nat) as [Hj|Hj].
      + rewrite lookup_app_l in H1, H2 by lia.
        apply (Horder i j); [done|by rewrite list_lookup_fmap..].
      + assert (e2 = entry) as ->.
        { rewrite lookup_app_r in H2 by lia.
          destruct (j - length kept)%nat as [|[|?]]; by simplify_eq/=. }
        destruct (decide (i < length kept)%nat) as [Hi|Hi].
        * rewrite lookup_app_l in H1 by lia.
          destruct (kept !! i) as [e|] eqn:He; simplify_eq/=.
          rewrite Hstamp.
          apply (proj1 (Forall_lookup _ _) Hbound i e1 He). lia.
        * rewrite lookup_app_r in H1 by lia.
          destruct (i - length kept)%nat as [|[|?]]; by simplify_eq/=.
    - apply Forall_app. split.
      + eapply Forall_impl; [exact Hbound|]. simpl.
        intros e He k Hk. apply He. lia.
      + apply Forall_singleton. intros k Hk. rewrite Hstamp.
        apply Hmono. lia. }
  unfold push_kept. case_bool_decide; [done|].
  destruct kept as [|e0 kept]; [done|]. simpl. rewrite drop_0. split.
  - intros i j e1 e2 Hij H1 H2.
    apply (Horder' (S i) (S j)); [lia|done..].
  - by inversion Hbound'.
Qed.

Lemma timely_pushes clock C entries :
  (∀ i j, (i ≤ j)%nat → clock i ≤ clock j) →
  ∀ c kept (b : CircularBuffer.t LogEntry),
    retains C kept b →
    timely clock c kept →
    timestamp <$> entries
    = (λ k, clock (c + k)%nat) <$> seq 0 (length entries) →
    ∃ kept',
      retains C kept' (CircularBuffer.pushes entries b)
      ∧ timely clock (c + length entries) kept'.
Proof.
  intros Hmono. induction entries as [|entry entries IH];
    intros c kept b Hb Htimely Hstamps.
  - exists kept. by rewrite Nat.add_0_r.
  - simpl in Hstamps. injection Hstamps as Hstamp Hstamps.
    rewrite Nat.add_0_r in Hstamp.
    destruct (IH (S c) (push_kept C kept entry) (CircularBuffer.push entry b))
      as (kept' & Hb' & Htimely').
    + by apply push_retains.
    + by apply timely_push.
    + etrans; [exact Hstamps|].
      rewrite <- fmap_S_seq, <- list_fmap_compose.
      apply list_fmap_ext. intros _ k _. simpl. f_equal. lia.
    + exists kept'. split; [done|].
      by replace (c + length (entry :: entries))%nat
        with (S c + length entries)%nat by (simpl; lia).
Qed.

(** The constructor leaves the log store empty. *)
Lemma new_runner_fresh options w r :
  new options w = Return r →
  ∃ C, retains C [] (logBuffer r)
       ∧ Num C = number_or (Options.logBufferSize options) (Num 300).
Proof.
  unfold new. intros Hnew.
  destruct (CircularBuffer.new _) as [b|e] eqn:Hb; [|done].
  injection Hnew as <-. simpl.
  destruct (number_or _ _) as [C|] eqn:HC; [|done].
  assert (1 ≤ C) as Hpos.
  { unfold CircularBuffer.new, Array_new in Hb.
    destruct (decide (0 ≤ C < 2 ^ 32)); [|done].
    unfold number_or in HC.
    destruct (Options.logBufferSize options) as [[n|]|];
      simpl in HC; try case_bool_decide; simplify_eq; lia. }
  exists C. split; [|done]. exists 0. by apply new_repr.
Qed.

(** X5. When the clock never goes back, the logs of a runner are in time
    order: after any calls on a runner made by the constructor, an entry
    of [getLogs()] has a timestamp not greater than those of the entries
    after it. *)
Theorem logs_in_time_order options w r ms :
  (∀ i j, (i ≤ j)%nat → now w i ≤ now w j) →
  new options w = Return r →
  Forall is_method ms →
  in_time_order (getLogs (this (after ms {| this := r; world := w |}))).
Proof.
  intros Hmono Hnew Hms.
  assert (∃ C kept,
            retains C kept (logBuffer (this {| this := r; world := w |}))
            ∧ timely (now w) (clock_reads (world {| this := r; world := w |}))
                kept
            ∧ now (world {| this := r; world := w |}) = now w) as Hinv.
  { destruct (new_runner_fresh _ _ _ Hnew) as (C & Hb & _).
    exists C, []. split; [done|]. split; [|done].
    split; [|done]. intros i j e1 e2 _ H1. by destruct i. }
  revert Hinv. generalize {| this := r; world := w |}.
  induction Hms as [|m ms Hm _ IH]; intros s (C & kept & Hb & Htimely & Hnow).
  - unfold getLogs. simpl. rewrite (getAll_retains C _ _ Hb).
    apply Htimely.
  - simpl. apply IH.
    destruct (method_footprint m s Hm) as [entries Hfp].
    destruct (timely_pushes (now w) C entries Hmono
                (clock_reads (world s)) kept (logBuffer (this s)) Hb Htimely)
      as (kept' & Hb' & Htimely').
    { rewrite (fp_stamps _ _ _ Hfp). by rewrite Hnow. }
    exists C, kept'. rewrite (fp_store _ _ _ Hfp), (fp_reads _ _ _ Hfp).
    split; [done|]. split; [done|].
    by rewrite (fp_clock _ _ _ Hfp).
Qed.

(** *** Stopping and writing on a running process *)

(** X6. While the runner is RUNNING and owns the process [p], [stop()]
    logs one [system] entry and then sends [p] the termination signal,
    and nothing more: the status stays RUNNING and the handle stays owned
    until the exit listener is called. An error thrown by [p.kill()] is
    not caught. *)
Theorem stop_signals_and_waits s p :
  process (this s) = Some p →
  getStatus (this s) = RUNNING →
  let s1 := (stop s).2 in
  (stop s).1
  = match Pty.kill_throws p with Some e => Throw e | None => Return () end
  ∧ getStatus (this s1) = RUNNING
  ∧ process (this s1) = Some p
  ∧ ∃ entry,
      type entry = system
      ∧ content entry = "Stopping command..."
      ∧ trace (world s1)
        = trace (world s) ++ [Emit (log entry); Kill (Pty.pid p)].
Proof.
  intros Hp Hst. unfold getStatus in *. exec.
  rewrite Hp, Hst. cbn. rewrite bool_decide_eq_true_2 by done.
  rewrite Hp. cbn.
  destruct (Pty.kill_throws p); cbn.
  all: do 3 (split; [done|]).
  all: eexists; split; [|split]; cycle 2.
  all: try (rewrite <- !(assoc_L (++)); reflexivity).
  all: reflexivity.
Qed.

(** X7. While the runner is RUNNING and owns the process [p], and
    [p.write(data)] returns, [write(data)] hands [p] the data as it is,
    between two [system] entries: the attempt, with the JSON text of the
    data, and the success. Status and handle are unchanged. *)
Theorem write_forwards_verbatim s p data :
  process (this s) = Some p →
  getStatus (this s) = RUNNING →
  Pty.write_throws p data = None →
  let s1 := (write data s).2 in
  getStatus (this s1) = RUNNING
  ∧ process (this s1) = Some p
  ∧ ∃ attempt success,
      type attempt = system
      ∧ content attempt = "Attempting to write key: " +:+ JSON_stringify data
      ∧ type success = system
      ∧ content success = "Successfully wrote key"
      ∧ trace (world s1)
        = trace (world s)
          ++ [Emit (log attempt); Write (Pty.pid p) data; Emit (log success)].
Proof.
  intros Hp Hst Hw. unfold getStatus in *. exec.
  rewrite Hp, Hst. cbn. rewrite bool_decide_eq_true_2 by done.
  rewrite Hp. cbn. rewrite Hw. cbn.
  do 2 (split; [done|]).
  eexists _, _. split; [|split; [|split; [|split]]]; cycle 4.
  - rewrite <- !(assoc_L (++)). reflexivity.
  - reflexivity.
  - reflexivity.
  - reflexivity.
  - reflexivity.
Qed.

(** X8. [write(data)] is safe to call in any state and with any data: it
    never throws, changes neither the status nor the handle, notifies no
    status change, signals no process, and hands a process the data at
    most once and nothing else. *)
Theorem write_is_safe data s :
  let s1 := (write data s).2 in
  (write data s).1 = Return ()
  ∧ getStatus (this s1) = getStatus (this s)
  ∧ process (this s1) = process (this s)
  ∧ ∃ effs,
      trace (world s1) = trace (world s) ++ effs
      ∧ status_changes effs = []
      ∧ killed effs = []
      ∧ (forwarded effs = [] ∨ forwarded effs = [data]).
Proof.
  unfold getStatus. exec.
  destruct (process (this s)) as [p|] eqn:Hp; cbn.
  - case_bool_decide as Hst; cbn.
    + rewrite Hp. cbn. destruct (Pty.write_throws p data); cbn.
      all: do 3 (split; [done|]).
      all: eexists; split; [rewrite <- !(assoc_L (++)); reflexivity|].
      all: cbn; auto.
    + do 3 (split; [done|]). eexists. split; [reflexivity|]. cbn. auto.
  - do 3 (split; [done|]). eexists. split; [reflexivity|]. cbn. auto.
Qed.

(** X9. The data listener records a chunk of output whatever the status
    is, also after the process has exited: one [stdout] entry with the
    chunk as its text and the reading of the clock as its timestamp is
    notified and becomes the last entry of [getLogs()]; status and handle
    are unchanged. *)
Theorem output_is_captured data s :
  runner_ok (this s) →
  let s1 := (onData_listener data s).2 in
  (onData_listener data s).1 = Return ()
  ∧ getStatus (this s1) = getStatus (this s)
  ∧ process (this s1) = process (this s)
  ∧ ∃ entry,
      entry = entry_in (world s) data stdout
      ∧ trace (world s1) = trace (world s) ++ [Emit (log entry)]
      ∧ last (getLogs (this s1)) = Some (Some entry).
Proof.
  intros (C & kept & Hb). exec. do 3 (split; [done|]).
  eexists. split; [reflexivity|]. split; [reflexivity|].
  unfold getLogs. cbn. rewrite (getAll_push C _ kept) by done.
  apply last_push_kept.
Qed.

(** *** The constructor *)

(** X10. For a [logBufferSize] that is left out, [NaN] or an integer
    (the numbers of this model: a fraction is none of them) and a host
    whose working directory can be read, the constructor throws exactly
    when the size is negative or [2^32] or more; the error is the
    [RangeError] of the array allocation. *)
Theorem constructor_throws_iff options w :
  (∃ e, new options w = Throw e)
  ↔ ∃ n, Options.logBufferSize options = Some (Num n) ∧ (n < 0 ∨ 2 ^ 32 ≤ n).
Proof.
  unfold new, CircularBuffer.new, Array_new, number_or.
  destruct (Options.logBufferSize options) as [[n|]|]; simpl.
  - case_bool_decide as Hn; simpl.
    + destruct (decide (0 ≤ n < 2 ^ 32)); split.
      * by intros [e ?].
      * intros (n' & [= <-] & ?). lia.
      * intros _. exists n. split; [done|lia].
      * eauto.
    + assert (n = 0) as -> by (destruct (decide (n = 0)); [done|]; by
        contradict Hn).
      split; [by intros [e ?]|]. intros (n' & [= <-] & ?). lia.
  - split; [by intros [e ?]|]. by intros (n' & ? & ?).
  - split; [by intros [e ?]|]. by intros (n' & ? & ?).
Qed.

(** X11. A runner made by the constructor is STOPPED, owns no process,
    has no listener and no logs; its log store has the capacity
    [logBufferSize], or 300 when that is left out, 0 or [NaN]; and an
    empty or missing [cwd] is replaced by the working directory of the
    host process. *)
Theorem constructor_initial_state options w r :
  new options w = Return r →
  getStatus r = STOPPED
  ∧ process r = None
  ∧ getLogs r = []
  ∧ (∀ name, listeners r name = O)
  ∧ (∃ C, CircularBuffer.getCapacity (logBuffer r) = Num C
          ∧ 1 ≤ C < 2 ^ 32
          ∧ (Options.logBufferSize options = Some (Num C)
             ∨ C = 300
               ∧ Options.logBufferSize options
                 ∈ [None; Some (Num 0); Some NaN]))
  ∧ (Options.cwd options ∈ [None; Some EmptyString] →
     cwd r = process_cwd w).
Proof.
  intros Hnew.
  destruct (new_runner_fresh _ _ _ Hnew) as (C & Hb & HC).
  pose proof (retains_capacity C _ _ Hb) as [Hcap Hpos].
  pose proof (getAll_retains C _ _ Hb) as Hlogs.
  unfold new in Hnew.
  destruct (CircularBuffer.new _) as [b|] eqn:Hnewb; [|done].
  injection Hnew as <-. simpl in *.
  do 4 (split; [done|]). split.
  - exists C. split; [done|]. split.
    + unfold CircularBuffer.new, Array_new in Hnewb. rewrite <- HC in Hnewb.
      destruct (decide (0 ≤ C < 2 ^ 32)); [lia|done].
    + unfold number_or in HC.
      destruct (Options.logBufferSize options) as [[n|]|]; simpl in HC.
      * case_bool_decide as Hn; simplify_eq; [by left|].
        right. split; [done|].
        set_solver.
      * simplify_eq. right. split; [done|]. set_solver.
      * simplify_eq. right. split; [done|]. set_solver.
  - unfold string_or. intros Hcwd.
    destruct (Options.cwd options) as [c|]; [|done].
    destruct (decide (c = EmptyString)); [done|].
    apply elem_of_cons in Hcwd as [?|Hcwd]; [done|].
    apply list_elem_of_singleton in Hcwd. congruence.
Qed.

Lemma append_assoc (a b c : string) : (a +:+ b) +:+ c = a +:+ b +:+ c.
Proof.
  induction a as [|x a IH]; [done|].
  change (String x ((a +:+ b) +:+ c) = String x (a +:+ b +:+ c)).
  by rewrite IH.
Qed.

Lemma join_app_pieces sep piece pieces extra :
  join sep ((piece :: pieces) ++ extra)
  = join sep (join sep (piece :: pieces) :: extra).
Proof.
  revert piece. induction pieces as [|q pieces IH]; intros piece; [done|].
  change (join sep ((piece :: q :: pieces) ++ extra))
    with (piece +:+ sep +:+ join sep ((q :: pieces) ++ extra)).
  rewrite IH.
  change (join sep (piece :: q :: pieces))
    with (piece +:+ sep +:+ join sep (q :: pieces)).
  destruct extra as [|x extra]; [done|].
  change (join sep (?a :: x :: extra))
    with (a +:+ sep +:+ join sep (x :: extra)).
  by rewrite !append_assoc.
Qed.

(** X12. The constructor loses nothing of the command line: the
    executable and the arguments it keeps, joined again by single spaces,
    are the command string followed by the explicit arguments. *)
Theorem command_line_is_kept options w r :
  new options w = Return r →
  join " " (command r :: args r)
  = join " " (Options.command options :: default [] (Options.args options)).
Proof.
  intros Hnew.
  destruct (join_split_space (Options.command options))
    as (piece & pieces & Hsplit & _ & Hjoin).
  unfold new in Hnew. destruct (CircularBuffer.new _); [|done].
  injection Hnew as <-. simpl. rewrite Hsplit. simpl.
  rewrite <- Hjoin. apply (join_app_pieces " " piece pieces).
Qed.

(** *** What no call changes *)

Lemma method_keeps_configuration m s :
  is_method m →
  command (this (m s).2) = command (this s)
  ∧ args (this (m s).2) = args (this s)
  ∧ cwd (this (m s).2) = cwd (this s)
  ∧ env (this (m s).2) = env (this s).
Proof.
  intros []; exec; try done.
  - destruct (spawn_outcome _ _); cbn; [done|]. by destruct (decide _).
  - destruct (process (this s)) as [p|] eqn:Hp; cbn; [|done].
    case_bool_decide; cbn; [|done]. rewrite Hp. cbn.
    by destruct (Pty.kill_throws p).
  - destruct (process (this s)) as [p|] eqn:Hp; cbn; [|done].
    case_bool_decide; cbn; [|done]. rewrite Hp. cbn.
    by destruct (Pty.write_throws p _).
Qed.

Lemma pushes_capacity {T} (xs : list T) (b : CircularBuffer.t T) :
  CircularBuffer.capacity (CircularBuffer.pushes xs b)
  = CircularBuffer.capacity b.
Proof.
  revert b. induction xs as [|x xs IH]; intros b; [done|].
  change (CircularBuffer.pushes (x :: xs) b)
    with (CircularBuffer.pushes xs (CircularBuffer.push x b)).
  rewrite IH. unfold CircularBuffer.push. by destruct (lt _ _).
Qed.

(** X13. No call changes how a runner was configured: after any calls,
    the executable, the arguments, the working directory, the environment
    and the capacity of the log store are those the runner had before. *)
Theorem configuration_is_fixed ms s :
  Forall is_method ms →
  let r := this s in
  let r' := this (after ms s) in
  command r' = command r
  ∧ args r' = args r
  ∧ cwd r' = cwd r
  ∧ env r' = env r
  ∧ CircularBuffer.getCapacity (logBuffer r')
    = CircularBuffer.getCapacity (logBuffer r).
Proof.
  intros Hms. revert s. induction Hms as [|m ms Hm _ IH]; intros s; [done|].
  simpl. destruct (IH (m s).2) as (-> & -> & -> & -> & Hcap).
  unfold CircularBuffer.getCapacity in *. rewrite Hcap.
  destruct (method_keeps_configuration m s Hm) as (-> & -> & -> & ->).
  do 4 (split; [done|]).
  destruct (method_footprint m s Hm) as [entries Hfp].
  by rewrite (fp_store _ _ _ Hfp), pushes_capacity.
Qed.

End RunnerMore.

(** ** Argument parsing, through to [pty.spawn] *)

Section SpawnArguments.
Import Js CommandRunner.

Local Arguments CircularBuffer.push : simpl never.
Local Arguments String.append : simpl never.
Local Arguments join : simpl never.
Local Arguments Error_toString : simpl never.

(** [start()] calls [pty.spawn] once, with the executable and the
    argument list the runner holds. *)
Lemma start_spawns_once s :
  ∃ effs,
    trace (world (start s).2) = trace (world s) ++ effs
    ∧ spawned effs = [(command (this s), args (this s))].
Proof.
  unfold start, setStatus, addLogEntry, emit, this_process, pty_spawn,
    perform, Date_now, modify_this, modify_world, get_this, try_catch,
    throw.
  unfold mbind, M_bind, mret, M_ret. cbn.
  destruct (spawn_outcome _ _) as [p|e]; cbn.
  - eexists. split; [rewrite <- !(assoc_L (++)); reflexivity|done].
  - destruct (decide _); cbn.
    all: eexists; split; [rewrite <- !(assoc_L (++)); reflexivity|done].
Qed.

Lemma after_keeps_command ms s :
  Forall is_method ms →
  command (this (after ms s)) = command (this s)
  ∧ args (this (after ms s)) = args (this s).
Proof.
  intros Hms. revert s. induction Hms as [|m ms Hm _ IH]; intros s; [done|].
  simpl. destruct (IH (m s).2) as [-> ->].
  destruct (method_keeps_configuration m s Hm) as (-> & -> & _). done.
Qed.

(** C8, as the code has it. The constructor splits the command string
    at every single space character, and at nothing else: when the
    string is pieces without a space joined by single spaces (every
    string is, in one way), the first piece is the executable and the
    argument list is the other pieces, empty ones included, followed by
    the explicit arguments. No character is treated as a quote. These
    are what [pty.spawn] is given: whenever [start()] is called on the
    runner, after any other calls, it calls [pty.spawn] once, with that
    executable and that argument list. *)
Theorem constructor_splits_at_spaces piece pieces options w r :
  Forall (λ p, has_space p = false) (piece :: pieces) →
  Options.command options = join " " (piece :: pieces) →
  new options w = Return r →
  command r = piece
  ∧ args r = pieces ++ default [] (Options.args options)
  ∧ ∀ ms s,
      this s = r →
      Forall is_method ms →
      ∃ effs,
        trace (world (start (after ms s)).2)
        = trace (world (after ms s)) ++ effs
        ∧ spawned effs
          = [(piece, pieces ++ default [] (Options.args options))].
Proof.
  intros Hall Hcommand Hnew.
  assert (command r = piece
          ∧ args r = pieces ++ default [] (Options.args options))
    as [Hpiece Hpieces].
  { revert Hnew. unfold new.
    rewrite Hcommand, split_space_join by done.
    destruct (CircularBuffer.new _); [|done].
    by intros [= <-]. }
  split; [done|]. split; [done|].
  intros ms s Hs Hms.
  destruct (start_spawns_once (after ms s)) as (effs & Htrace & Hspawned).
  destruct (after_keeps_command ms s Hms) as [Hc Ha].
  exists effs. split; [done|].
  by rewrite Hspawned, Hc, Ha, Hs, Hpiece, Hpieces.
Qed.

End SpawnArguments.

Lemma constructor_splits_at_spaces_witness :
  CommandRunner.command example_runner_args = "test-cmd"
  ∧ CommandRunner.args example_runner_args = ["arg1"; "arg2"; "arg3"]
  ∧ ∃ effs,
      CommandRunner.trace
        (CommandRunner.world
           (CommandRunner.start
              {| CommandRunner.this := example_runner_args;
                 CommandRunner.world := example_world |}).2)
      = [] ++ effs
      ∧ spawned effs = [("test-cmd", ["arg1"; "arg2"; "arg3"])].
Proof.
  pose proof (constructor_splits_at_spaces "test-cmd" ["arg1"; "arg2"]
                example_options_args example_world example_runner_args)
    as Hsplit.
  destruct Hsplit as (Hcommand & Hargs & Hspawn).
  - by repeat constructor.
  - reflexivity.
  - reflexivity.
  - split; [exact Hcommand|]. split; [exact Hargs|].
    exact (Hspawn [] {| CommandRunner.this := example_runner_args;
                        CommandRunner.world := example_world |}
             eq_refl (Forall_nil_2 _)).
Defined.

(** ** Further properties of the tools *)

Section ToolsMore.
Import Js CommandRunner Server ServerTools.
Implicit Types (s : State) (kept : list LogEntry).

Local Arguments CircularBuffer.push : simpl never.
Local Arguments CircularBuffer.getAll : simpl never.
Local Arguments String.append : simpl never.
Local Arguments Error_toString : simpl never.
Local Arguments JSON_stringify : simpl never.
Local Arguments JSON_logs : simpl never.
Local Arguments JSON_logs_indented : simpl never.

Lemma filter_types_defined types kept :
  filter_types types (Some <$> kept)
  = Return (Some <$> filter (λ entry, type entry ∈ types) kept).
Proof.
  induction kept as [|entry kept IH]; [done|].
  rewrite fmap_cons. cbn [filter_types]. rewrite IH. case_bool_decide.
  - by rewrite filter_cons_True.
  - by rewrite filter_cons_False.
Qed.

Lemma slice_last {A} (n : Z) (l : list A) :
  1 ≤ n → slice_from (neg (Num n)) l = last_n (Z.to_nat n) l.
Proof.
  intros Hn. unfold slice_from, last_n. simpl.
  destruct (decide (- n < 0)); [|lia]. f_equal. lia.
Qed.

Lemma slice_not_positive {A} (n : Z) (l : list A) :
  n ≤ 0 → slice_from (neg (Num n)) l = drop (Z.to_nat (- n)) l.
Proof.
  intros Hn. unfold slice_from. simpl.
  destruct (decide (- n < 0)); [lia|].
  destruct (decide (- n ≤ Z.of_nat (length l))).
  - f_equal. lia.
  - rewrite !drop_ge; [done|lia..].
Qed.

Lemma runner_ok_logs r :
  runner_ok r → ∃ kept, getLogs r = Some <$> kept.
Proof.
  intros (C & kept & Hb). exists kept. by apply getAll_retains with C.
Qed.

(** X14. [getRecentLogs] with a limit of at least 1 (100 when left out)
    returns the JSON text of the newest [limit] entries among those of
    [getLogs()] whose type is one of [types] (all types when left out),
    oldest first, or of all of them when they are fewer. It does not
    throw and leaves the runner as it is. *)
Theorem getRecentLogs_newest limit types n s :
  runner_ok (this s) →
  default (Num 100) limit = Num n →
  1 ≤ n →
  ∃ kept,
    getLogs (this s) = Some <$> kept
    ∧ getRecentLogs limit types s
      = (Return
           {| text :=
                JSON_logs
                  (Some <$> last_n (Z.to_nat n)
                     (filter (λ entry, type entry
                                       ∈ default [stdout; stderr; system] types)
                        kept));
              isError := false |}, s).
Proof.
  intros [kept Hlogs]%runner_ok_logs Hlimit Hn. exists kept.
  split; [done|].
  unfold getRecentLogs, recent_logs, get_this, mbind, M_bind, mret, M_ret.
  rewrite Hlogs, filter_types_defined, Hlimit, slice_last by done.
  unfold last_n. by rewrite fmap_drop, length_fmap.
Qed.

(** X15. A limit of 0 does not give an empty answer: [getRecentLogs]
    then returns every entry of the chosen types; and with a negative
    limit [-k] it returns all of them but the [k] oldest. *)
Theorem getRecentLogs_without_limit limit types n s :
  runner_ok (this s) →
  default (Num 100) limit = Num n →
  n ≤ 0 →
  ∃ kept,
    getLogs (this s) = Some <$> kept
    ∧ getRecentLogs limit types s
      = (Return
           {| text :=
                JSON_logs
                  (Some <$> drop (Z.to_nat (- n))
                     (filter (λ entry, type entry
                                       ∈ default [stdout; stderr; system] types)
                        kept));
              isError := false |}, s).
Proof.
  intros [kept Hlogs]%runner_ok_logs Hlimit Hn. exists kept.
  split; [done|].
  unfold getRecentLogs, recent_logs, get_this, mbind, M_bind, mret, M_ret.
  rewrite Hlogs, filter_types_defined, Hlimit, slice_not_positive by done.
  by rewrite fmap_drop.
Qed.

(** X16. The resource [logs://recent] is the indented JSON text of the
    newest 100 entries of [getLogs()], oldest first, or of all of them
    when they are fewer; reading it leaves the runner as it is. *)
Theorem logs_resource_newest s :
  runner_ok (this s) →
  ∃ kept,
    getLogs (this s) = Some <$> kept
    ∧ logs_resource s
      = (Return {| uri := "logs://recent";
                   resource_text :=
                     JSON_logs_indented (Some <$> last_n 100 kept) |}, s).
Proof.
  intros [kept Hlogs]%runner_ok_logs. exists kept. split; [done|].
  unfold logs_resource, get_this, mbind, M_bind, mret, M_ret.
  rewrite Hlogs, (slice_last 100) by lia.
  unfold last_n. by rewrite fmap_drop, length_fmap.
Qed.

Lemma write_running s p data :
  process (this s) = Some p →
  getStatus (this s) = RUNNING →
  ∃ attempt final,
    trace (world (write data s).2)
    = trace (world s)
      ++ [Emit (log attempt); Write (Pty.pid p) data; Emit (log final)].
Proof.
  intros Hp Hst. unfold getStatus in *.
  unfold write, addLogEntry, emit, this_process, pty_write, perform,
    Date_now, modify_this, modify_world, get_this, try_catch, throw.
  unfold mbind, M_bind, mret, M_ret. cbn.
  rewrite Hp, Hst. cbn. rewrite bool_decide_eq_true_2 by done.
  rewrite Hp. cbn.
  destruct (Pty.write_throws p data); cbn.
  all: eexists _, _; rewrite <- !(assoc_L (++)); reflexivity.
Qed.

(** X17. What is typed at the terminal of the host reaches a RUNNING
    process as it is, except Enter, which is sent as carriage return and
    line feed: the process is handed exactly that one string. While the
    runner is not RUNNING the input is dropped and nothing is logged.
    (Ctrl+C, which ends the host, and the names of inherited object
    properties are apart.) *)
Theorem terminal_input_is_forwarded str s :
  str ≠ CtrlC →
  (getStatus (this s) ≠ RUNNING →
   terminal_listener str s = Some (Return (), s))
  ∧ (∀ p, getStatus (this s) = RUNNING →
          process (this s) = Some p →
          str ∉ Object_prototype_names →
          ∃ s1 effs,
            terminal_listener str s = Some (Return (), s1)
            ∧ trace (world s1) = trace (world s) ++ effs
            ∧ forwarded effs
              = [VString (if decide (str = CR) then CRLF else str)]).
Proof.
  intros HC. unfold terminal_listener.
  destruct (decide (str = CtrlC)); [done|]. split.
  - intros Hst. by rewrite bool_decide_eq_false_2.
  - intros p Hst Hp Hnames. rewrite bool_decide_eq_true_2 by done.
    assert (∀ data, ∃ s1 effs,
              Some (write data s) = Some (Return (), s1)
              ∧ trace (world s1) = trace (world s) ++ effs
              ∧ forwarded effs = [data]) as Hwrite.
    { intros data. exists (write data s).2.
      destruct (write_running s p data Hp Hst) as (attempt & final & Htrace).
      eexists. split; [|split; [exact Htrace|done]].
      pose proof (write_returns data s) as Hret.
      destruct (write data s) as [c s1]. simpl in *. by subst c. }
    unfold terminal_keyMap. rewrite (bool_decide_eq_false_2 _ Hnames).
    repeat case_decide; simplify_eq; exact (Hwrite _).
Qed.

(** X18. The answer of [sendKeyPress] tells whether the runner was
    RUNNING, not whether the key arrived: the tool never throws, its
    [isError] flag is set exactly when the status is not RUNNING, also
    when the write to the process failed, and when it is set the runner
    is left as it is, without a log entry. *)
Theorem sendKeyPress_answer key s :
  ∃ res,
    (sendKeyPress key s).1 = Return res
    ∧ isError res = bool_decide (getStatus (this s) ≠ RUNNING)
    ∧ (getStatus (this s) ≠ RUNNING → (sendKeyPress key s).2 = s).
Proof.
  unfold sendKeyPress, get_this, mbind, M_bind, mret, M_ret. cbn.
  case_bool_decide as Hst.
  - eexists. by repeat split.
  - pose proof (write_returns (keyToSend key) s) as Hret.
    destruct (write (keyToSend key) s) as [c s1]. simpl in *. subst c.
    eexists. by repeat split.
Qed.

Lemma start_with_error_listener s :
  listeners (this s) on_error ≠ O →
  (start s).1 = Return ()
  ∧ getStatus (this (start s).2)
    = match spawn_outcome (world s) (spawn_calls (world s)) with
      | Return _ => RUNNING
      | Throw _ => ERROR
      end.
Proof.
  intros Hlistener.
  unfold start, setStatus, addLogEntry, emit, this_process, pty_spawn,
    perform, Date_now, modify_this, modify_world, get_this, try_catch,
    throw.
  unfold mbind, M_bind, mret, M_ret. cbn.
  destruct (spawn_outcome _ _); cbn; [done|].
  by destruct (decide _).
Qed.

(** X19. In [createServer] a failure to spawn does not throw: the runner
    is made with a listener for [error], so [start()] returns, with the
    status RUNNING when [pty.spawn] returned and ERROR when it threw. For
    a buffer size that is left out, [NaN] or an integer (the numbers of
    this model) and a host whose working directory can be read, the only
    error is that of the constructor, for a size that is negative or
    [2^32] or more. *)
Theorem create_runner_outcome command bufferSize w :
  match create_runner command bufferSize w with
  | Return (c, s) =>
      c = Return ()
      ∧ getStatus (this s)
        = match spawn_outcome w (spawn_calls w) with
          | Return _ => RUNNING
          | Throw _ => ERROR
          end
  | Throw e =>
      e = RangeError "Invalid array length"
      ∧ ∃ n, bufferSize = Some (Num n) ∧ (n < 0 ∨ 2 ^ 32 ≤ n)
  end.
Proof.
  unfold create_runner.
  destruct (new _ w) as [r|e] eqn:Hnew.
  - change ((on on_log;; on on_exit;; on on_error;; start)
              {| this := r; world := w |})
      with (start ((on on_log;; on on_exit;; on on_error)
                     {| this := r; world := w |}).2).
    pose proof (start_with_error_listener
                  ((on on_log;; on on_exit;; on on_error)
                     {| this := r; world := w |}).2) as Hstart.
    destruct (start _) as [c s]. apply Hstart. done.
  - unfold new, CircularBuffer.new, Array_new, number_or in Hnew.
    destruct bufferSize as [[n|]|]; cbn in Hnew.
    + case_bool_decide as Hzero.
      * destruct (decide (0 ≤ n < 2 ^ 32)); [done|].
        injection Hnew as <-. split; [done|].
        exists n. split; [done|lia].
      * destruct (decide (0 ≤ 300 < 2 ^ 32)); [done|lia].
    + done.
    + done.
Qed.

End ToolsMore.

(** ** The further properties on the concrete store and runner *)

Lemma store_is_bounded_queue_witness :
  CircularBuffer.getAll (apply_ops example_ops example_store) = [Some "d"].
Proof.
  refine (proj1 (store_is_bounded_queue 2 example_store example_ops _ _)).
  - lia.
  - reflexivity.
Defined.

Lemma clear_gives_new_store_witness :
  CircularBuffer.getAll
    (CircularBuffer.pushes ["x"; "y"; "z"]
       (CircularBuffer.clear (apply_ops example_ops example_store)))
  = CircularBuffer.getAll (CircularBuffer.pushes ["x"; "y"; "z"] example_store).
Proof.
  refine (clear_gives_new_store 2 example_store example_ops _ _ _).
  - lia.
  - reflexivity.
Defined.

Lemma store_never_grows_witness :
  Js.Array_length
    (CircularBuffer.buffer (apply_ops example_ops example_store)) = 2.
Proof.
  refine (proj1 (store_never_grows 2 example_store example_ops _ _)).
  - lia.
  - reflexivity.
Defined.

Lemma notifications_agree_witness :
  ∃ effs,
    CommandRunner.trace (CommandRunner.world
                           (CommandRunner.start example_state).2)
    = CommandRunner.trace (CommandRunner.world example_state) ++ effs
    ∧ CommandRunner.logBuffer (CommandRunner.this
                                 (CommandRunner.start example_state).2)
      = CircularBuffer.pushes (logged effs)
          (CommandRunner.logBuffer (CommandRunner.this example_state))
    ∧ CommandRunner.getStatus (CommandRunner.this
                                 (CommandRunner.start example_state).2)
      = default (CommandRunner.getStatus (CommandRunner.this example_state))
          (last (status_changes effs)).
Proof.
  exact (notifications_agree CommandRunner.start example_state method_start).
Defined.

Lemma logs_in_time_order_witness :
  in_time_order
    (CommandRunner.getLogs
       (CommandRunner.this
          (after [CommandRunner.start;
                  CommandRunner.onData_listener "output1";
                  CommandRunner.write (Js.VString "y")] example_state))).
Proof.
  apply (logs_in_time_order example_options example_world example_runner).
  - intros i j Hij. simpl. lia.
  - reflexivity.
  - repeat constructor.
Defined.

Lemma stop_signals_and_waits_witness :
  (CommandRunner.stop example_state_running).1 = Js.Return ()
  ∧ CommandRunner.getStatus
      (CommandRunner.this (CommandRunner.stop example_state_running).2)
    = CommandRunner.RUNNING.
Proof.
  pose proof (stop_signals_and_waits example_state_running example_pty
                eq_refl eq_refl) as (Hreturn & Hstatus & _).
  exact (conj Hreturn Hstatus).
Defined.

Lemma write_forwards_verbatim_witness :
  CommandRunner.process
    (CommandRunner.this
       (CommandRunner.write (Js.VString "y") example_state_running).2)
  = Some example_pty.
Proof.
  exact (proj1 (proj2 (write_forwards_verbatim example_state_running
                         example_pty (Js.VString "y")
                         eq_refl eq_refl eq_refl))).
Defined.

Lemma output_is_captured_witness :
  (CommandRunner.onData_listener "test output" example_state).1
  = Js.Return ().
Proof.
  exact (proj1 (output_is_captured "test output" example_state
                  example_runner_ok)).
Defined.

Lemma constructor_initial_state_witness :
  CommandRunner.getStatus example_runner = CommandRunner.STOPPED
  ∧ CommandRunner.process example_runner = None
  ∧ CommandRunner.getLogs example_runner = [].
Proof.
  pose proof (constructor_initial_state example_options example_world
                example_runner eq_refl) as (Hstatus & Hprocess & Hlogs & _).
  exact (conj Hstatus (conj Hprocess Hlogs)).
Defined.

Lemma command_line_is_kept_witness :
  Js.join " " (CommandRunner.command example_runner_args
               :: CommandRunner.args example_runner_args)
  = "test-cmd arg1 arg2 arg3".
Proof.
  exact (command_line_is_kept example_options_args example_world
           example_runner_args eq_refl).
Defined.

Lemma configuration_is_fixed_witness :
  CommandRunner.command
    (CommandRunner.this
       (after [CommandRunner.start; CommandRunner.stop] example_state))
  = "test-cmd".
Proof.
  refine (proj1 (configuration_is_fixed
                   [CommandRunner.start; CommandRunner.stop]
                   example_state _)).
  repeat constructor.
Defined.

Lemma roomy_runner_new :
  CommandRunner.new roomy_options example_world = Js.Return roomy_runner.
Proof. reflexivity. Qed.

Lemma busy_state_ok : runner_ok (CommandRunner.this busy_state).
Proof.
  apply (reachable_ok roomy_options example_world roomy_runner busy_calls).
  - exact roomy_runner_new.
  - repeat constructor.
Qed.

Lemma busy_state_logs :
  CommandRunner.getLogs (CommandRunner.this busy_state) = Some <$> busy_logs.
Proof. vm_compute. reflexivity. Qed.

Lemma long_state_ok : runner_ok (CommandRunner.this long_state).
Proof.
  apply (reachable_ok roomy_options example_world roomy_runner long_calls).
  - exact roomy_runner_new.
  - apply Forall_cons. split; [constructor|].
    apply Forall_fmap, Forall_forall. intros k _. constructor.
Qed.

Lemma long_state_logs :
  CommandRunner.getLogs (CommandRunner.this long_state) = Some <$> long_logs.
Proof. vm_compute. reflexivity. Qed.

(** Of the three [stdout] entries among the six logs, a limit of 2 gives
    the two newest. *)
Lemma getRecentLogs_newest_witness :
  ServerTools.getRecentLogs (Some (Js.Num 2)) (Some [CommandRunner.stdout])
    busy_state
  = (Js.Return
       {| Server.text :=
            ServerTools.JSON_logs
              [Some (entry_at 2 "output2" CommandRunner.stdout);
               Some (entry_at 5 "output3" CommandRunner.stdout)];
          Server.isError := false |}, busy_state).
Proof.
  destruct (getRecentLogs_newest (Some (Js.Num 2))
              (Some [CommandRunner.stdout]) 2 busy_state busy_state_ok
              eq_refl) as (kept & Hlogs & Hanswer); [lia|].
  rewrite busy_state_logs in Hlogs.
  apply (inj (fmap Some)) in Hlogs. subst kept. exact Hanswer.
Defined.

(** With a limit of 0 all three [stdout] entries are returned, and with a
    limit of -1 all but the oldest. *)
Lemma getRecentLogs_without_limit_witness :
  ServerTools.getRecentLogs (Some (Js.Num 0)) (Some [CommandRunner.stdout])
    busy_state
  = (Js.Return
       {| Server.text :=
            ServerTools.JSON_logs
              [Some (entry_at 1 "output1" CommandRunner.stdout);
               Some (entry_at 2 "output2" CommandRunner.stdout);
               Some (entry_at 5 "output3" CommandRunner.stdout)];
          Server.isError := false |}, busy_state)
  ∧ ServerTools.getRecentLogs (Some (Js.Num (-1)))
      (Some [CommandRunner.stdout]) busy_state
    = (Js.Return
         {| Server.text :=
              ServerTools.JSON_logs
                [Some (entry_at 2 "output2" CommandRunner.stdout);
                 Some (entry_at 5 "output3" CommandRunner.stdout)];
            Server.isError := false |}, busy_state).
Proof.
  split.
  - destruct (getRecentLogs_without_limit (Some (Js.Num 0))
                (Some [CommandRunner.stdout]) 0 busy_state busy_state_ok
                eq_refl) as (kept & Hlogs & Hanswer); [lia|].
    rewrite busy_state_logs in Hlogs.
    apply (inj (fmap Some)) in Hlogs. subst kept. exact Hanswer.
  - destruct (getRecentLogs_without_limit (Some (Js.Num (-1)))
                (Some [CommandRunner.stdout]) (-1) busy_state busy_state_ok
                eq_refl) as (kept & Hlogs & Hanswer); [lia|].
    rewrite busy_state_logs in Hlogs.
    apply (inj (fmap Some)) in Hlogs. subst kept. exact Hanswer.
Defined.

(** Of 103 logs the resource gives the newest 100: the start
    announcement and the first two lines are left out. *)
Lemma logs_resource_newest_witness :
  ServerTools.logs_resource long_state
  = (Js.Return
       {| ServerTools.uri := "logs://recent";
          ServerTools.resource_text :=
            ServerTools.JSON_logs_indented (Some <$> drop 3 long_logs) |},
     long_state)
  ∧ length long_logs = 103%nat
  ∧ length (drop 3 long_logs) = 100%nat.
Proof.
  split; [|split; reflexivity].
  destruct (logs_resource_newest long_state long_state_ok)
    as (kept & Hlogs & Hanswer).
  rewrite long_state_logs in Hlogs.
  apply (inj (fmap Some)) in Hlogs. subst kept. exact Hanswer.
Defined.

(** Enter typed at the terminal reaches the running process as carriage
    return and line feed; typed while the runner is STOPPED it is
    dropped. *)
Lemma terminal_input_is_forwarded_witness :
  (∃ s1 effs,
     ServerTools.terminal_listener Server.CR example_state_running
     = Some (Js.Return (), s1)
     ∧ CommandRunner.trace (CommandRunner.world s1)
       = CommandRunner.trace (CommandRunner.world example_state_running)
         ++ effs
     ∧ forwarded effs = [Js.VString ServerTools.CRLF])
  ∧ ServerTools.terminal_listener Server.CR example_state
    = Some (Js.Return (), example_state).
Proof.
  assert (Server.CR ≠ ServerTools.CtrlC) as Hkey by discriminate.
  split.
  - refine (proj2 (terminal_input_is_forwarded Server.CR
                     example_state_running Hkey)
              example_pty eq_refl eq_refl _).
    intros Hname.
    repeat (apply elem_of_cons in Hname as [Hname|Hname];
            [discriminate Hname|]).
    by apply elem_of_nil in Hname.
  - refine (proj1 (terminal_input_is_forwarded Server.CR example_state Hkey)
              _).
    discriminate.
Defined.

Lemma sendKeyPress_answer_witness :
  ∃ res,
    (Server.sendKeyPress "Enter" example_state).1 = Js.Return res
    ∧ Server.isError res = true.
Proof.
  destruct (sendKeyPress_answer "Enter" example_state)
    as (res & Hreturn & Herror & _).
  exists res. exact (conj Hreturn Herror).
Defined.
